(** * Session, request authorisation and optimistic updates of the neo4flix client

    A shallow embedding of the TypeScript services
    - [src/services/auth.service.ts]        (AuthService),
    - [src/services/auth.interceptor.ts]    (authInterceptor, isPublic, extractPath),
    - [src/services/watchlist.service.ts]   (WatchlistService),
    - [src/services/rating.service.ts]      (RatingService),
    and the properties their specification states about them.

    The browser runs these services on one thread: a call runs to its end, and
    the only suspension points are the HTTP requests.  The embedding therefore
    is an event system: a state, the requests that wait for their response
    (each with the rest of its RxJS pipeline, in defunctionalised form), and a
    step function that takes one event (a user action, a response, the clock)
    and runs the code it triggers to its end. *)

From Stdlib Require Import Floats.
From stdpp Require Import base option list gmap sets strings.
From Stdlib Require Import ZArith Lia Ascii String DecimalString.
From Stdlib Require DecimalPos.

Local Open Scope string_scope.
Local Open Scope list_scope.
Local Open Scope Z_scope.

(** ** JavaScript strings and values, as far as the services use them *)

Module Js.

(** [s.startsWith(p)] *)
Fixpoint startsWith (s p : string) : bool :=
  match p, s with
  | EmptyString, _ => true
  | String a p', String b s' => if Ascii.eqb a b then startsWith s' p' else false
  | String _ _, EmptyString => false
  end.

(** [s.includes(sub)] *)
Fixpoint includes (s sub : string) : bool :=
  startsWith s sub ||
  match s with
  | EmptyString => false
  | String _ s' => includes s' sub
  end.

(** [s.endsWith(p)] *)
Fixpoint endsWith (s p : string) : bool :=
  String.eqb s p ||
  match s with
  | EmptyString => false
  | String _ s' => endsWith s' p
  end.

(** The rest of [s] after the prefix [p], when [s] starts with [p]. *)
Fixpoint stripPrefix (p s : string) : option string :=
  match p, s with
  | EmptyString, _ => Some s
  | String a p', String b s' => if Ascii.eqb a b then stripPrefix p' s' else None
  | String _ _, EmptyString => None
  end.

Definition isSlash (c : ascii) : bool := Ascii.eqb c "/"%char.

(** [\d] of a regular expression: an ASCII digit. *)
Definition isDigit (c : ascii) : bool :=
  let n := Ascii.nat_of_ascii c in (48 <=? n)%nat && (n <=? 57)%nat.

(** [s] cut at its first character satisfying [f]: what comes before it, and
    the rest from that character on. *)
Fixpoint span (f : ascii -> bool) (s : string) : string * string :=
  match s with
  | EmptyString => (EmptyString, EmptyString)
  | String c s' =>
      if f c then (EmptyString, s)
      else let '(a, b) := span f s' in (String c a, b)
  end.

Definition nonEmpty (s : string) : bool := negb (String.eqb s EmptyString).

(** Every character of [s] satisfies [f]. *)
Fixpoint every (f : ascii -> bool) (s : string) : bool :=
  match s with
  | EmptyString => true
  | String c s' => f c && every f s'
  end.

(** A character of the ASCII range.  On a text of such characters the
    characters of the string here are the UTF-16 units of the JavaScript
    string, one for one. *)
Definition isAscii (c : ascii) : bool := (Ascii.nat_of_ascii c <? 128)%nat.

(** [s.split('/').pop() || ''] : what follows the last slash. *)
Fixpoint lastSegment (s : string) : string :=
  match s with
  | EmptyString => EmptyString
  | String c s' =>
      if includes s' "/" then lastSegment s'
      else if isSlash c then s' else s
  end.

(** Truthiness of a [string | null]: [null] and the empty string are falsy. *)
Definition truthy (v : option string) : bool :=
  match v with
  | Some s => nonEmpty s
  | None => false
  end.

(** The string a [string | undefined] value is turned into where a DOM API
    expects a string ([localStorage.setItem]): [undefined] becomes the text
    "undefined". *)
Definition toDOMString (v : option string) : string :=
  match v with
  | Some s => s
  | None => "undefined"
  end.

(** [parseInt(s, 10)]: leading white space is skipped, a sign is read, and the
    longest run of decimal digits is the value; [None] is [NaN]. *)
Definition isSpace (c : ascii) : bool :=
  let n := Ascii.nat_of_ascii c in
  (n =? 32)%nat || ((9 <=? n)%nat && (n <=? 13)%nat).

Fixpoint skipSpaces (s : string) : string :=
  match s with
  | String c s' => if isSpace c then skipSpaces s' else s
  | EmptyString => s
  end.

Fixpoint digitsValue (acc : Z) (s : string) : Z :=
  match s with
  | String c s' =>
      if isDigit c
      then digitsValue (10 * acc + (Z.of_nat (Ascii.nat_of_ascii c) - 48)) s'
      else acc
  | EmptyString => acc
  end.

Definition startsWithDigit (s : string) : bool :=
  match s with
  | String c _ => isDigit c
  | EmptyString => false
  end.

Definition parseInt (s : string) : option Z :=
  let t := skipSpaces s in
  let '(neg, u) :=
    match t with
    | String "-" u => (true, u)
    | String "+" u => (false, u)
    | _ => (false, t)
    end in
  if startsWithDigit u
  then Some (if neg then - digitsValue 0 u else digitsValue 0 u)
  else None.

(** [a < b] and [a >= b] on numbers, one of which may be [NaN]: every
    comparison with [NaN] is false. *)
Definition lt (a : Z) (b : option Z) : bool :=
  match b with Some b => a <? b | None => false end.

Definition ge (a : Z) (b : option Z) : bool :=
  match b with Some b => b <=? a | None => false end.

(** [n.toString()] of an integer.  JavaScript prints a number in plain
    decimal below 1e21 and with an exponent from there on, and holds
    integers exactly up to 2^53: the statements that print a number of
    unknown size bound it. *)
Definition toString (n : Z) : string :=
  DecimalString.NilZero.string_of_int (Z.to_int n).

End Js.

(** ** The interceptor's route classification *)

Module Routes.
Import Js.

(** [new URL(url).pathname] for the URLs [HttpClient] is given here: an
    absolute http or https URL yields what lies between the authority and
    the query or fragment ("/" when that is empty); a text without a scheme
    has no base to be resolved against and the constructor throws ([None]).
    This is the browser's answer on the addresses of [plainUrl] below, the
    production addresses of the services among them; on other texts (dot
    segments, an upper-case or another scheme, characters the parser
    rewrites) the browser's parser does more, and no statement is made about
    them. *)
Definition isPathEnd (c : ascii) : bool :=
  Ascii.eqb c "?"%char || Ascii.eqb c "#"%char.

Definition afterScheme (url : string) : option string :=
  match stripPrefix "https://" url with
  | Some r => Some r
  | None => stripPrefix "http://" url
  end.

Definition URL_pathname (url : string) : option string :=
  match afterScheme url with
  | Some r =>
      let '(host, rest) := span (fun c => isSlash c || isPathEnd c) r in
      if nonEmpty host
      then let '(p, _) := span isPathEnd rest in
           Some (if nonEmpty p then p else "/")
      else None
  | None => None
  end.

Definition extractPath (url : string) : string :=
  match URL_pathname url with
  | Some p => p
  | None => url
  end.

(** The addresses on which [URL_pathname] is what the browser computes,
    and to which the statements about arbitrary addresses are confined.
    Either the text begins with a slash: it has no scheme and the
    constructor throws.  Or it is [http://] or [https://] in lower case,
    followed by a host, an optional port of one to four digits, and a path.
    The host is made of lower-case letters, digits, hyphens and dots, begins
    with a letter or digit, has neither two hyphens nor two dots in a row
    (no empty and no encoded label), and its last label begins with a letter
    (so that it is not read as an IPv4 address).  The path is made of
    letters, digits and the characters [/-._~@:+,=!$&()*;] (none that the
    parser would encode, no backslash, no percent sign), and none of its
    segments is [.] or [..].  What follows the first [?] or [#] is free. *)
Definition isLowerAlpha (c : ascii) : bool :=
  let n := Ascii.nat_of_ascii c in (97 <=? n)%nat && (n <=? 122)%nat.

Definition isUpperAlpha (c : ascii) : bool :=
  let n := Ascii.nat_of_ascii c in (65 <=? n)%nat && (n <=? 90)%nat.

Definition isHostChar (c : ascii) : bool :=
  isLowerAlpha c || isDigit c || Ascii.eqb c "-"%char || Ascii.eqb c "."%char.

Definition isPathChar (c : ascii) : bool :=
  isLowerAlpha c || isUpperAlpha c || isDigit c
  || existsb (Ascii.eqb c)
       ["/"; "-"; "."; "_"; "~"; "@"; ":"; "+"; ","; "="; "!"; "$"; "&"; "("; ")"; "*";
        ";"]%char.

(** What follows the last dot of a host. *)
Fixpoint lastLabel (s : string) : string :=
  match s with
  | EmptyString => EmptyString
  | String c s' =>
      if includes s' "." then lastLabel s'
      else if Ascii.eqb c "."%char then s' else s
  end.

Definition plainHost (h : string) : bool :=
  every isHostChar h
  && negb (includes h "--") && negb (includes h "..")
  && match h with
     | String c _ => isLowerAlpha c || isDigit c
     | EmptyString => false
     end
  && match lastLabel h with
     | String c _ => isLowerAlpha c
     | EmptyString => false
     end.

Definition plainPort (p : string) : bool :=
  match p with
  | EmptyString => true
  | String c digits =>
      Ascii.eqb c ":"%char && nonEmpty digits && every isDigit digits
      && (String.length digits <=? 4)%nat
  end.

Definition plainPath (p : string) : bool :=
  every isPathChar p
  && negb (includes (p +:+ "/") "/./")
  && negb (includes (p +:+ "/") "/../").

Definition plainUrl (url : string) : bool :=
  startsWith url "/"
  || match afterScheme url with
     | Some r =>
         let '(authority, rest) := span (fun c => isSlash c || isPathEnd c) r in
         let '(host, port) := span (fun c => Ascii.eqb c ":"%char) authority in
         plainHost host && plainPort port && plainPath (fst (span isPathEnd rest))
     | None => false
     end.

Definition PUBLIC_ENDPOINTS : list string :=
  [ "/api/users/login"; "/api/users/register"; "/api/users/refresh";
    "/api/users/search"; "/api/users/all"; "/api/movies/trending";
    "/api/movies/popular"; "/api/movies/random"; "/api/movies/search" ].

Definition AUTHENTICATED_ENDPOINTS : list string :=
  [ "/api/users/me"; "/api/users/logout"; "/api/users/2fa/status";
    "/api/users/2fa/enable"; "/api/users/2fa/verify"; "/api/users/2fa/disable" ].

(** The regular expressions [^<pre>[^/]+<post>$] and [^<pre>\d+<post>$]:
    the prefix, one non-empty segment of the class, the suffix, the end. *)
Definition matchSegment (cls : ascii -> bool) (pre post path : string) : bool :=
  match stripPrefix pre path with
  | Some r =>
      let '(seg, rest) := span (fun c => negb (cls c)) r in
      nonEmpty seg && String.eqb rest post
  | None => false
  end.

Definition notSlash (c : ascii) : bool := negb (isSlash c).

Definition PUBLIC_PATTERNS : list (string -> bool) :=
  [ matchSegment notSlash "/api/users/" "/followers";
    matchSegment notSlash "/api/users/" "/following";
    matchSegment isDigit "/api/movies/" EmptyString;
    matchSegment isDigit "/api/movies/" "/similar";
    matchSegment isDigit "/api/ratings/movie/" "/average" ].

Definition userProfilePattern : string -> bool :=
  matchSegment notSlash "/api/users/" EmptyString.

Definition reservedUserPaths : list string :=
  [ "me"; "login"; "register"; "refresh"; "logout"; "search" ].

Definition isPublic (url : string) : bool :=
  let path := extractPath url in
  if existsb (fun endpoint => endsWith path endpoint) AUTHENTICATED_ENDPOINTS then false
  else if existsb (fun endpoint => includes path endpoint) PUBLIC_ENDPOINTS then true
  else if existsb (fun pattern => pattern path) PUBLIC_PATTERNS then true
  else if userProfilePattern path
          && (let segment := lastSegment path in
              negb (existsb (String.eqb segment) reservedUserPaths)
              && negb (startsWith segment "follow")
              && negb (startsWith segment "unfollow"))
       then true
  else if startsWith path "/api/movies/" && negb (includes path "watchlist") then true
  else false.

(** [isAuthEndpoint] of the interceptor's error handler. *)
Definition isAuthEndpoint (url : string) : bool :=
  includes url "/api/users/login"
  || includes url "/api/users/register"
  || includes url "/api/users/refresh".

End Routes.

(** ** HTTP messages *)

Module Http.

Inductive Method := GET | POST | DELETE.

(** The token object of the login and refresh endpoints.  The interface
    declares every field, yet the service itself builds
    [{ access_token: token } as TokenResponse], an object that lacks the
    others; a field that is missing ([undefined]) is [None]. *)
Record TokenResponse := {
  access_token : string;
  refresh_token : option string;
  expires_in : option Z;
  refresh_expires_in : option Z;
  token_type : option string
}.

Record UserProfile := {
  username : string;
  email : string;
  firstname : string;
  lastname : string;
  followersCount : Z;
  followingCount : Z
}.

Record User := {
  profile : UserProfile;
  avatar : string
}.

Record LoginRequest := {
  login_username : string;
  login_password : string;
  totp : option string
}.

(** What a request carries, as far as the services build it. *)
Inductive Payload :=
| NoPayload
| RefreshPayload (refreshToken : string)
| LogoutPayload (refreshToken : string)
| LoginPayload (request : LoginRequest)
| OtherPayload (text : string).

Record HttpRequest := {
  method : Method;
  url : string;
  headers : gmap string string;
  payload : Payload
}.

(** [req.clone({ setHeaders: { name: value } })] *)
Definition setHeader (name value : string) (req : HttpRequest) : HttpRequest :=
  {| method := req.(method); url := req.(url);
     headers := <[name := value]> req.(headers);
     payload := req.(payload) |}.

(** What a successful response carries. *)
Inductive Body :=
| TokenBody (response : TokenResponse)
| ProfileBody (p : UserProfile)
| UserBody (user : User)
| TextBody (text : string)
| EmptyBody.

(** [error.error] of an [HttpErrorResponse], by the cases [handleError]
    tells apart. *)
Inductive ErrorPayload :=
| ClientError (message : string)   (* an ErrorEvent *)
| ErrorText (text : string)        (* a string *)
| ErrorObject (message : string)   (* an object with a message *)
| NoErrorPayload.

(** What an observable fails with: the client's [HttpErrorResponse] or a
    JavaScript [Error] made by the services. *)
Inductive Error :=
| HttpErrorResponse (status : Z) (url : string) (e : ErrorPayload)
| JsError (message : string).

(** [error.status === 401] *)
Definition isStatus (code : Z) (e : Error) : bool :=
  match e with
  | HttpErrorResponse status _ _ => status =? code
  | JsError _ => false
  end.

(** What an observable hands to its subscriber. *)
Inductive Outcome :=
| Next (b : Body)
| Fail (e : Error).

(** What the network answers to a request: a body, or a status that the
    client turns into an [HttpErrorResponse]. *)
Inductive Response :=
| Ok (b : Body)
| Failed (status : Z) (e : ErrorPayload).

Definition outcomeOf (url : string) (r : Response) : Outcome :=
  match r with
  | Ok b => Next b
  | Failed status e => Fail (HttpErrorResponse status url e)
  end.

End Http.

(** ** AuthService and authInterceptor *)

Module Auth.
Import Js Routes Http.

(** [environment.apiBaseUrl] and the service's [apiUrl] *)
Definition API_BASE_URL : string := "https://elanor-nonprofessed-venus.ngrok-free.dev".
Definition apiUrl : string := API_BASE_URL +:+ "/api/users".

(** *** localStorage

    The service reads and writes four entries, [STORAGE_KEYS].  The profile
    entry is only ever handed to [JSON.parse] and written from
    [JSON.stringify]: it is kept as what [JSON.parse] makes of it, the user
    it denotes ([Parsed]) or a text it throws on ([Unparsable]); a text that
    parses to something else than a user is what the cast [as User] rules
    out. *)
Inductive ProfileEntry :=
| Parsed (user : User)
| Unparsable (text : string).

Record Storage := {
  ACCESS_TOKEN : option string;
  REFRESH_TOKEN : option string;
  TOKEN_EXPIRY : option string;
  USER_PROFILE : option ProfileEntry
}.

Definition emptyStorage : Storage :=
  {| ACCESS_TOKEN := None; REFRESH_TOKEN := None; TOKEN_EXPIRY := None;
     USER_PROFILE := None |}.

Definition entryTruthy (e : option ProfileEntry) : bool :=
  match e with
  | Some (Parsed _) => true
  | Some (Unparsable text) => nonEmpty text
  | None => false
  end.

(** *** The service's fields *)
Record AuthService := {
  storage : Storage;
  _currentUser : option User;
  _isLoggedIn : bool;
  _isLoading : bool;
  _error : option string;
  refreshTokenSubject : option string;   (* the BehaviorSubject's current value *)
  isRefreshing : bool
}.

Definition isAuthenticated (a : AuthService) : bool :=
  a.(_isLoggedIn) &&
  match a.(_currentUser) with
  | Some _ => true
  | None => false
  end.

Definition getAccessToken (a : AuthService) : option string := a.(storage).(ACCESS_TOKEN).
Definition getRefreshToken (a : AuthService) : option string := a.(storage).(REFRESH_TOKEN).

Definition isTokenExpired (now : Z) (a : AuthService) : bool :=
  match a.(storage).(TOKEN_EXPIRY) with
  | Some expiry => if nonEmpty expiry then Js.ge now (parseInt expiry) else true
  | None => true
  end.

Definition withStorage (st : Storage) (a : AuthService) : AuthService :=
  {| storage := st; _currentUser := a.(_currentUser); _isLoggedIn := a.(_isLoggedIn);
     _isLoading := a.(_isLoading); _error := a.(_error);
     refreshTokenSubject := a.(refreshTokenSubject); isRefreshing := a.(isRefreshing) |}.

Definition setCurrentUser (u : option User) (a : AuthService) : AuthService :=
  {| storage := a.(storage); _currentUser := u; _isLoggedIn := a.(_isLoggedIn);
     _isLoading := a.(_isLoading); _error := a.(_error);
     refreshTokenSubject := a.(refreshTokenSubject); isRefreshing := a.(isRefreshing) |}.

Definition setIsLoggedIn (b : bool) (a : AuthService) : AuthService :=
  {| storage := a.(storage); _currentUser := a.(_currentUser); _isLoggedIn := b;
     _isLoading := a.(_isLoading); _error := a.(_error);
     refreshTokenSubject := a.(refreshTokenSubject); isRefreshing := a.(isRefreshing) |}.

Definition setIsLoading (b : bool) (a : AuthService) : AuthService :=
  {| storage := a.(storage); _currentUser := a.(_currentUser); _isLoggedIn := a.(_isLoggedIn);
     _isLoading := b; _error := a.(_error);
     refreshTokenSubject := a.(refreshTokenSubject); isRefreshing := a.(isRefreshing) |}.

Definition setError (e : option string) (a : AuthService) : AuthService :=
  {| storage := a.(storage); _currentUser := a.(_currentUser); _isLoggedIn := a.(_isLoggedIn);
     _isLoading := a.(_isLoading); _error := e;
     refreshTokenSubject := a.(refreshTokenSubject); isRefreshing := a.(isRefreshing) |}.

(** [this.isRefreshing = b; this.refreshTokenSubject.next(v)], the
    assignments only; the subscribers are served by [notifyWaiters]. *)
Definition setRefreshing (b : bool) (v : option string) (a : AuthService) : AuthService :=
  {| storage := a.(storage); _currentUser := a.(_currentUser); _isLoggedIn := a.(_isLoggedIn);
     _isLoading := a.(_isLoading); _error := a.(_error);
     refreshTokenSubject := v; isRefreshing := b |}.

(** [Date.now() + (response.expires_in - 30) * 1000], [NaN] when the response
    has no [expires_in], and its [toString()]. *)
Definition expiryTime (now : Z) (response : TokenResponse) : option Z :=
  match response.(expires_in) with
  | Some e => Some (now + (e - 30) * 1000)
  | None => None
  end.

Definition numberToString (n : option Z) : string :=
  match n with
  | Some z => Js.toString z
  | None => "NaN"
  end.

Definition storeTokens (now : Z) (response : TokenResponse) (a : AuthService) : AuthService :=
  withStorage
    {| ACCESS_TOKEN := Some response.(access_token);
       REFRESH_TOKEN := Some (toDOMString response.(refresh_token));
       TOKEN_EXPIRY := Some (numberToString (expiryTime now response));
       USER_PROFILE := a.(storage).(USER_PROFILE) |} a.

Definition clearAuthState (a : AuthService) : AuthService :=
  {| storage := {| ACCESS_TOKEN := None; REFRESH_TOKEN := None;
                   TOKEN_EXPIRY := None; USER_PROFILE := None |};
     _currentUser := None; _isLoggedIn := false;
     _isLoading := a.(_isLoading); _error := None;
     refreshTokenSubject := a.(refreshTokenSubject); isRefreshing := a.(isRefreshing) |}.

Definition mapToUser (p : UserProfile) : User :=
  {| profile := p;
     avatar := "https://api.dicebear.com/7.x/initials/svg?seed=" +:+ p.(username)
               +:+ "&backgroundColor=6366f1" |}.

(** [handleError]: the message it settles on, and the call itself, which
    sets the error signal and returns the [Error] to throw. *)
Definition errorMessage (error : Error) (defaultMessage : string) : string :=
  match error with
  | HttpErrorResponse _ _ (ClientError message) => message
  | HttpErrorResponse _ _ (ErrorText text) => text
  | HttpErrorResponse status _ payload =>
      let byStatus :=
        if status =? 400 then "Invalid request. Please check your input."
        else if status =? 401 then "Invalid credentials. Please try again."
        else if status =? 403 then "Access denied."
        else if status =? 404 then "User not found."
        else if status =? 409 then "Username or email already exists."
        else if status =? 500 then "Server error. Please try again later."
        else defaultMessage in
      match payload with
      | ErrorObject message => if nonEmpty message then message else byStatus
      | _ => byStatus
      end
  | JsError _ => defaultMessage
  end.

Definition handleError (error : Error) (defaultMessage : string) (a : AuthService)
    : AuthService * Error :=
  let message := errorMessage error defaultMessage in
  (setError (Some message) a, JsError message).

(** *** The interceptor, on the way out *)
Definition authInterceptor_request (a : AuthService) (req : HttpRequest) : HttpRequest :=
  let isPublicEndpoint := isPublic req.(url) in
  match getAccessToken a with
  | Some token =>
      if nonEmpty token && negb isPublicEndpoint
      then setHeader "Authorization" ("Bearer " +:+ token) req
      else req
  | None => req
  end.

(** Whether the interceptor answers a failure with a token refresh. *)
Definition authInterceptor_refreshes (a : AuthService) (req : HttpRequest) (error : Error) : bool :=
  isStatus 401 error && negb (isAuthEndpoint req.(url)) && a.(_isLoggedIn).

(** *** Pipelines

    What remains to be run when a response arrives.  [Pipe] is the part a
    service puts behind its [HttpClient] call, [Consumer] what is put behind
    [refreshToken()], and [Pending] the whole of what waits on one request
    in the network, the interceptor's operators included.  The refresh call
    has an entry of its own: it passes the interceptor untouched in both
    directions, its path being public and an authentication endpoint. *)
Inductive AfterProfile :=
| ProfileSubscriber (caller : option nat)                  (* [.subscribe()] *)
| ProfileOfLogin (tokenResponse : TokenResponse) (caller : nat)
| ProfileOfRestore.                                        (* [error: () => clearAuthState()] *)

Inductive Pipe :=
| Subscriber (caller : nat)        (* an HttpClient call of another service *)
| LogoutPipe                       (* [catchError(() => of(null))], [.subscribe()] *)
| RegisterPipe (caller : nat)
| LoginPipe (caller : nat)
| ProfilePipe (after : AfterProfile).

Inductive Consumer :=
| RetryOf (req : HttpRequest) (pipe : Pipe)   (* the interceptor's switchMap and catchError *)
| RestoreSession                              (* initializeAuthState *)
| RefreshSubscriber (caller : nat).           (* a direct subscriber *)

Inductive Pending :=
| First (req : HttpRequest) (pipe : Pipe)     (* [next(authReq)] and the interceptor's catchError *)
| Retry (req : HttpRequest) (pipe : Pipe)     (* [next(retryReq)] inside the switchMap *)
| RefreshPost (consumer : Consumer).          (* the POST of the running refresh, with
                                                 refreshToken's tap and catchError *)

Record System := {
  auth : AuthService;
  now : Z;                             (* Date.now() *)
  pending : gmap nat Pending;          (* requests in the network, by id *)
  nextId : nat;
  sent : list HttpRequest;             (* all requests handed to the network, oldest first *)
  waiters : list Consumer;             (* subscribers of refreshTokenSubject, oldest first *)
  delivered : list (nat * Outcome);    (* what the outside subscribers received, oldest first *)
  navigations : list string            (* router.navigate *)
}.

Definition onAuth (f : AuthService -> AuthService) (s : System) : System :=
  {| auth := f s.(auth); now := s.(now); pending := s.(pending); nextId := s.(nextId);
     sent := s.(sent); waiters := s.(waiters); delivered := s.(delivered);
     navigations := s.(navigations) |}.

Definition navigate (path : string) (s : System) : System :=
  {| auth := s.(auth); now := s.(now); pending := s.(pending); nextId := s.(nextId);
     sent := s.(sent); waiters := s.(waiters); delivered := s.(delivered);
     navigations := s.(navigations) ++ [path] |}.

Definition emit (caller : nat) (o : Outcome) (s : System) : System :=
  {| auth := s.(auth); now := s.(now); pending := s.(pending); nextId := s.(nextId);
     sent := s.(sent); waiters := s.(waiters);
     delivered := s.(delivered) ++ [(caller, o)];
     navigations := s.(navigations) |}.

(** [emit] for several subscribers in a row. *)
Definition emitAll (l : list (nat * Outcome)) (s : System) : System :=
  {| auth := s.(auth); now := s.(now); pending := s.(pending); nextId := s.(nextId);
     sent := s.(sent); waiters := s.(waiters);
     delivered := s.(delivered) ++ l;
     navigations := s.(navigations) |}.

Definition setWaiters (ws : list Consumer) (s : System) : System :=
  {| auth := s.(auth); now := s.(now); pending := s.(pending); nextId := s.(nextId);
     sent := s.(sent); waiters := ws; delivered := s.(delivered);
     navigations := s.(navigations) |}.

Definition setPending (ps : gmap nat Pending) (s : System) : System :=
  {| auth := s.(auth); now := s.(now); pending := ps; nextId := s.(nextId);
     sent := s.(sent); waiters := s.(waiters); delivered := s.(delivered);
     navigations := s.(navigations) |}.

Definition advance (ms : Z) (s : System) : System :=
  {| auth := s.(auth); now := s.(now) + ms; pending := s.(pending); nextId := s.(nextId);
     sent := s.(sent); waiters := s.(waiters); delivered := s.(delivered);
     navigations := s.(navigations) |}.

(** The request [req] goes to the network and [p] waits for its answer. *)
Definition transmit (req : HttpRequest) (p : Pending) (s : System) : System :=
  {| auth := s.(auth); now := s.(now);
     pending := <[s.(nextId) := p]> s.(pending); nextId := S s.(nextId);
     sent := s.(sent) ++ [req]; waiters := s.(waiters); delivered := s.(delivered);
     navigations := s.(navigations) |}.

(** An [HttpClient] call: the interceptor decides on the header, and stays
    around the request with its [catchError]. *)
Definition httpCall (req : HttpRequest) (pipe : Pipe) (s : System) : System :=
  transmit (authInterceptor_request s.(auth) req) (First req pipe) s.

Definition newRequest (m : Method) (u : string) (b : Payload) : HttpRequest :=
  {| method := m; url := u; headers := ∅; payload := b |}.

Definition refreshRequest (refreshToken : string) : HttpRequest :=
  newRequest POST (apiUrl +:+ "/refresh") (RefreshPayload refreshToken).

Definition fetchUserProfile (after : AfterProfile) (s : System) : System :=
  httpCall (newRequest GET (apiUrl +:+ "/me") NoPayload) (ProfilePipe after) s.

Definition logout (s : System) : System :=
  let s1 :=
    match getRefreshToken s.(auth) with
    | Some refreshToken =>
        if nonEmpty refreshToken
        then httpCall (newRequest POST (apiUrl +:+ "/logout") (LogoutPayload refreshToken))
                      LogoutPipe s
        else s
    | None => s
    end in
  navigate "/auth" (onAuth clearAuthState s1).

Definition emitTo (caller : option nat) (o : Outcome) (s : System) : System :=
  match caller with
  | Some c => emit c o s
  | None => s
  end.

(** The end of the [fetchUserProfile()] pipeline and what its caller put
    behind it. *)
Definition afterProfile (after : AfterProfile) (o : Outcome) (s : System) : System :=
  match after, o with
  | ProfileSubscriber caller, _ => emitTo caller o s
  | ProfileOfLogin tokenResponse caller, _ =>
      (* [map(() => tokenResponse)], [catchError(() => of(tokenResponse))], the
         subscriber, and login's [finalize] *)
      onAuth (setIsLoading false) (emit caller (Next (TokenBody tokenResponse)) s)
  | ProfileOfRestore, Next _ => s
  | ProfileOfRestore, Fail _ => onAuth clearAuthState s
  end.

(** A service's pipeline receives what the intercepted call yields. *)
Definition deliver (pipe : Pipe) (o : Outcome) (s : System) : System :=
  match pipe, o with
  | Subscriber caller, _ => emit caller o s
  | LogoutPipe, _ => s
  | RegisterPipe caller, Next _ => emit caller o s
  | RegisterPipe caller, Fail error =>
      let '(a, thrown) :=
        handleError error "Registration failed" (setIsLoading false s.(auth)) in
      emit caller (Fail thrown) (onAuth (fun _ => a) s)
  | LoginPipe caller, Next (TokenBody response) =>
      fetchUserProfile (ProfileOfLogin response caller)
        (onAuth (fun a => setIsLoggedIn true (storeTokens s.(now) response a)) s)
  | LoginPipe caller, Next _ => s
  | LoginPipe caller, Fail error =>
      let '(a, thrown) := handleError error "Login failed" s.(auth) in
      onAuth (setIsLoading false) (emit caller (Fail thrown) (onAuth (fun _ => a) s))
  | ProfilePipe after, Next (ProfileBody p) =>
      let user := mapToUser p in
      afterProfile after (Next (UserBody user))
        (onAuth (fun a =>
                   withStorage
                     {| ACCESS_TOKEN := a.(storage).(ACCESS_TOKEN);
                        REFRESH_TOKEN := a.(storage).(REFRESH_TOKEN);
                        TOKEN_EXPIRY := a.(storage).(TOKEN_EXPIRY);
                        USER_PROFILE := Some (Parsed user) |}
                     (setCurrentUser (Some user) a)) s)
  | ProfilePipe after, Next _ => s
  | ProfilePipe after, Fail error =>
      afterProfile after o
        (if isStatus 401 error then onAuth clearAuthState s else s)
  end.

(** What is behind [refreshToken()] receives its outcome. *)
Definition consume (c : Consumer) (o : Outcome) (s : System) : System :=
  match c, o with
  | RetryOf req pipe, Next _ =>
      let newToken := match getAccessToken s.(auth) with
                      | Some t => t
                      | None => "null"
                      end in
      let retryReq := setHeader "Authorization" ("Bearer " +:+ newToken) req in
      transmit retryReq (Retry req pipe) s
  | RetryOf req pipe, Fail refreshError =>
      deliver pipe (Fail refreshError) (logout s)
  | RestoreSession, Next _ => fetchUserProfile ProfileOfRestore s
  | RestoreSession, Fail _ => onAuth clearAuthState s
  | RefreshSubscriber caller, _ => emit caller o s
  end.

(** A subscriber of [refreshTokenSubject] receives a value that passed the
    filter: the empty string stands for a failed refresh. *)
Definition partialTokenResponse (token : string) : TokenResponse :=
  {| access_token := token; refresh_token := None; expires_in := None;
     refresh_expires_in := None; token_type := None |}.

Definition waiterOutcome (token : string) : Outcome :=
  if nonEmpty token
  then Next (TokenBody (partialTokenResponse token))
  else Fail (JsError "Token refresh failed").

Definition waiterReceives (token : string) (c : Consumer) (s : System) : System :=
  consume c (waiterOutcome token) s.

(** [refreshTokenSubject.next(token)] for a token other than [null]: every
    subscriber is served, in the order of subscription, and is done
    ([take(1)]). *)
Definition notifyWaiters (token : string) (s : System) : System :=
  fold_left (fun s' c => waiterReceives token c s') s.(waiters) (setWaiters [] s).

Definition refreshToken (c : Consumer) (s : System) : System :=
  let a := s.(auth) in
  match getRefreshToken a with
  | Some refreshToken =>
      if nonEmpty refreshToken then
        if a.(isRefreshing) then
          match a.(refreshTokenSubject) with
          | None => setWaiters (s.(waiters) ++ [c]) s
          | Some token => waiterReceives token c s
          end
        else
          transmit (authInterceptor_request a (refreshRequest refreshToken))
                   (RefreshPost c)
                   (onAuth (setRefreshing true None) s)
      else consume c (Fail (JsError "No refresh token available")) (onAuth clearAuthState s)
  | None => consume c (Fail (JsError "No refresh token available")) (onAuth clearAuthState s)
  end.

(** The running refresh ends. *)
Definition refreshSucceeded (response : TokenResponse) (c : Consumer) (s : System) : System :=
  let s1 := onAuth (fun a => setRefreshing false (Some response.(access_token))
                               (storeTokens s.(now) response a)) s in
  consume c (Next (TokenBody response)) (notifyWaiters response.(access_token) s1).

Definition refreshFailed (error : Error) (c : Consumer) (s : System) : System :=
  let s1 := onAuth (setRefreshing false (Some EmptyString)) s in
  let s2 := navigate "/auth" (onAuth clearAuthState (notifyWaiters EmptyString s1)) in
  consume c (Fail error) s2.

(** Whether a body has the type the pipeline casts it to. *)
Definition wellTyped (p : Pending) (r : Response) : bool :=
  match r with
  | Failed _ _ => true
  | Ok b =>
      match p, b with
      | RefreshPost _, TokenBody _ => true
      | RefreshPost _, _ => false
      | (First _ (LoginPipe _) | Retry _ (LoginPipe _)), TokenBody _ => true
      | (First _ (LoginPipe _) | Retry _ (LoginPipe _)), _ => false
      | (First _ (ProfilePipe _) | Retry _ (ProfilePipe _)), ProfileBody _ => true
      | (First _ (ProfilePipe _) | Retry _ (ProfilePipe _)), _ => false
      | _, _ => true
      end
  end.

(** The answer [r] to the pending entry [p] arrives. *)
Definition respond (p : Pending) (r : Response) (s : System) : System :=
  match p with
  | First req pipe =>
      match outcomeOf req.(url) r with
      | Next b => deliver pipe (Next b) s
      | Fail error =>
          if authInterceptor_refreshes s.(auth) req error
          then refreshToken (RetryOf req pipe) s
          else deliver pipe (Fail error) s
      end
  | Retry req pipe =>
      match outcomeOf req.(url) r with
      | Next b => deliver pipe (Next b) s
      | Fail refreshError => deliver pipe (Fail refreshError) (logout s)
      end
  | RefreshPost c =>
      match r with
      | Ok (TokenBody response) => refreshSucceeded response c s
      | Ok _ => s
      | Failed status e =>
          refreshFailed (HttpErrorResponse status (apiUrl +:+ "/refresh") e) c s
      end
  end.

Definition login (caller : nat) (request : LoginRequest) (s : System) : System :=
  httpCall (newRequest POST (apiUrl +:+ "/login") (LoginPayload request))
           (LoginPipe caller)
           (onAuth (fun a => setError None (setIsLoading true a)) s).

Definition register (caller : nat) (text : string) (s : System) : System :=
  httpCall (newRequest POST (apiUrl +:+ "/register") (OtherPayload text))
           (RegisterPipe caller)
           (onAuth (fun a => setError None (setIsLoading true a)) s).

(** *** Events *)
Inductive Event :=
| Login (caller : nat) (request : LoginRequest)
| Register (caller : nat) (text : string)
| Logout
| RefreshToken (caller : nat)
| FetchUserProfile (caller : nat)
| Call (caller : nat) (req : HttpRequest)
| Respond (id : nat) (r : Response)
| Tick (ms : Z).

Definition step (s : System) (e : Event) : option System :=
  match e with
  | Login caller request => Some (login caller request s)
  | Register caller text => Some (register caller text s)
  | Logout => Some (logout s)
  | RefreshToken caller => Some (refreshToken (RefreshSubscriber caller) s)
  | FetchUserProfile caller => Some (fetchUserProfile (ProfileSubscriber (Some caller)) s)
  | Call caller req => Some (httpCall req (Subscriber caller) s)
  | Respond id r =>
      match s.(pending) !! id with
      | Some p =>
          if wellTyped p r
          then Some (respond p r (setPending (delete id s.(pending)) s))
          else None
      | None => None
      end
  | Tick ms => if 0 <=? ms then Some (advance ms s) else None
  end.

Fixpoint run (s : System) (es : list Event) : option System :=
  match es with
  | [] => Some s
  | e :: es' =>
      match step s e with
      | Some s' => run s' es'
      | None => None
      end
  end.

(** *** The constructor

    [constructor() { this.initializeAuthState(); }] runs while the injector
    is still building the service.  An [HttpClient] call subscribed there
    enters the interceptor, whose first statement,
    [injector.get(AuthService)], asks for the very service that is under
    construction: the injector throws its circular-dependency error
    (NG0200).  Nothing reaches the network, the interceptor's own
    [catchError] is not in place yet, and what the service put behind the
    call receives the error, which has no [status]. *)
Definition cyclicDependency : Error :=
  JsError "NG0200: Circular dependency in DI detected for AuthService".

Definition httpCallInConstructor (req : HttpRequest) (pipe : Pipe) (s : System) : System :=
  deliver pipe (Fail cyclicDependency) s.

Definition fetchUserProfileInConstructor (after : AfterProfile) (s : System) : System :=
  httpCallInConstructor (newRequest GET (apiUrl +:+ "/me") NoPayload) (ProfilePipe after) s.

(** [refreshToken()] subscribed in the constructor: as [refreshToken], but
    the POST fails in the interceptor, so that its [catchError] runs at
    once. *)
Definition refreshTokenInConstructor (c : Consumer) (s : System) : System :=
  let a := s.(auth) in
  match getRefreshToken a with
  | Some refreshToken =>
      if nonEmpty refreshToken then
        if a.(isRefreshing) then
          match a.(refreshTokenSubject) with
          | None => setWaiters (s.(waiters) ++ [c]) s
          | Some token => waiterReceives token c s
          end
        else
          refreshFailed cyclicDependency c (onAuth (setRefreshing true None) s)
      else consume c (Fail (JsError "No refresh token available")) (onAuth clearAuthState s)
  | None => consume c (Fail (JsError "No refresh token available")) (onAuth clearAuthState s)
  end.

Definition initializeAuthState (s : System) : System :=
  let a := s.(auth) in
  let storedUser := a.(storage).(USER_PROFILE) in
  match a.(storage).(TOKEN_EXPIRY) with
  | Some expiry =>
      if truthy (getAccessToken a) && entryTruthy storedUser && nonEmpty expiry then
        let expiryTime := parseInt expiry in
        if Js.lt s.(now) expiryTime then
          match storedUser with
          | Some (Parsed user) =>
              fetchUserProfileInConstructor (ProfileSubscriber None)
                (onAuth (fun a => setIsLoggedIn true (setCurrentUser (Some user) a)) s)
          | _ => onAuth clearAuthState s
          end
        else
          refreshTokenInConstructor RestoreSession
            match storedUser with
            | Some (Parsed user) =>
                onAuth (fun a => setIsLoggedIn true (setCurrentUser (Some user) a)) s
            | _ => s
            end
      else s
  | None => s
  end.

Definition newAuthService (st : Storage) : AuthService :=
  {| storage := st; _currentUser := None; _isLoggedIn := false; _isLoading := false;
     _error := None; refreshTokenSubject := None; isRefreshing := false |}.

(** The application starts at time [t] over the stored entries [st]: the
    service is created with its fields as declared and the constructor
    runs. *)
Definition boot (st : Storage) (t : Z) : System :=
  initializeAuthState
    {| auth := newAuthService st; now := t; pending := ∅; nextId := 0%nat; sent := [];
       waiters := []; delivered := []; navigations := [] |}.

Inductive reachable : System -> Prop :=
| reachable_boot st t : reachable (boot st t)
| reachable_step s e s' : reachable s -> step s e = Some s' -> reachable s'.

(** *** Invariants *)

(** The logged-in flag is only set while an access token is stored. *)
Definition tokenKept (s : System) : Prop :=
  s.(auth).(_isLoggedIn) = true → is_Some (getAccessToken s.(auth)).

(** The coordinator's fields agree: subscribers of the subject exist only
    while a refresh runs, and the subject holds [null] all that time. *)
Definition coordinated (s : System) : Prop :=
  (s.(auth).(isRefreshing) = false → s.(waiters) = [])
  ∧ (s.(auth).(isRefreshing) = true → s.(auth).(refreshTokenSubject) = None).

(** What a piece of code leaves of the coordinator's fields. *)
Definition sameCoordinator (s s' : System) : Prop :=
  s'.(waiters) = s.(waiters)
  ∧ s'.(auth).(isRefreshing) = s.(auth).(isRefreshing)
  ∧ s'.(auth).(refreshTokenSubject) = s.(auth).(refreshTokenSubject).

(** At most one refresh call is in the network, and one is only while
    [isRefreshing] is set; the ids of the awaited requests are below
    [nextId]. *)
Definition isRefreshPost (p : Pending) : bool :=
  match p with
  | RefreshPost _ => true
  | _ => false
  end.

Definition singleFlight (s : System) : Prop :=
  (∀ i, is_Some (s.(pending) !! i) → (i < s.(nextId))%nat)
  ∧ (∀ i j p q, s.(pending) !! i = Some p → s.(pending) !! j = Some q →
                isRefreshPost p = true → isRefreshPost q = true → i = j)
  ∧ (∀ i p, s.(pending) !! i = Some p → isRefreshPost p = true →
            s.(auth).(isRefreshing) = true).

(** No refresh call is in the network. *)
Definition quiet (s : System) : Prop :=
  (∀ i, is_Some (s.(pending) !! i) → (i < s.(nextId))%nat)
  ∧ (∀ i p, s.(pending) !! i = Some p → isRefreshPost p = false).

(** From [s] to [s'] requests other than refresh calls were sent, at new
    ids, and [isRefreshing] was left alone. *)
Definition grows (s s' : System) : Prop :=
  (s.(nextId) ≤ s'.(nextId))%nat
  ∧ s'.(auth).(isRefreshing) = s.(auth).(isRefreshing)
  ∧ (∀ i, s'.(pending) !! i = s.(pending) !! i
          ∨ ((s.(nextId) ≤ i < s'.(nextId))%nat
             ∧ ∃ p, s'.(pending) !! i = Some p ∧ isRefreshPost p = false)).

(** The requests of [l] that are refresh calls. *)
Definition isRefreshCall (req : HttpRequest) : bool :=
  String.eqb req.(url) (apiUrl +:+ "/refresh").

Definition refreshCalls (l : list HttpRequest) : nat :=
  List.length (List.filter isRefreshCall l).

(** The user in memory is the one in storage. *)
Definition profileCached (s : System) : Prop :=
  ∀ u, s.(auth).(_currentUser) = Some u →
       s.(auth).(storage).(USER_PROFILE) = Some (Parsed u).

(** A request of an outside subscriber that is in the network: its id, the
    request as the service built it, and the subscriber. *)
Record InFlight := {
  flight_id : nat;
  flight_req : HttpRequest;
  flight_caller : nat
}.

Definition awaited (s : System) (f : InFlight) : Prop :=
  s.(pending) !! f.(flight_id) = Some (First f.(flight_req) (Subscriber f.(flight_caller))).

Definition retryOf (f : InFlight) : Consumer :=
  RetryOf f.(flight_req) (Subscriber f.(flight_caller)).

(** The awaited requests once those of [l] are answered. *)
Definition taken (l : list InFlight) (m : gmap nat Pending) : gmap nat Pending :=
  fold_left (λ m f, delete f.(flight_id) m) l m.

(** The requests of the service, as its methods build them. *)
Definition loginRequest (request : LoginRequest) : HttpRequest :=
  newRequest POST (apiUrl +:+ "/login") (LoginPayload request).

Definition profileRequest : HttpRequest :=
  newRequest GET (apiUrl +:+ "/me") NoPayload.

Definition logoutRequest (refreshToken : string) : HttpRequest :=
  newRequest POST (apiUrl +:+ "/logout") (LogoutPayload refreshToken).

(** The request as the interceptor sends it a second time. *)
Definition withBearer (token : string) (req : HttpRequest) : HttpRequest :=
  setHeader "Authorization" ("Bearer " +:+ token) req.

End Auth.

(** ** NotificationService, as the other services use it *)

Module Notification.

Inductive NotificationType := success | error | warning | info.

(** A toast.  Its id (clock and random number) and the timer that dismisses
    it are left out: the list below is the toasts shown so far. *)
Record Notification := {
  type : NotificationType;
  message : string
}.

Definition show (t : NotificationType) (m : string) (l : list Notification) : list Notification :=
  l ++ [ {| type := t; message := m |} ].

End Notification.

(** ** WatchlistService *)

Module Watchlist.
Import Http.

Definition apiUrl : string := Auth.API_BASE_URL +:+ "/api/movies".

(** [MovieSummary]; its [voteAverage], a floating-point number that no
    operation of the service reads, is left out. *)
Record MovieSummary := {
  tmdbId : Z;
  title : string;
  overview : string;
  posterPath : option string;
  releaseYear : Z;
  genres : list string
}.

Record WatchlistService := {
  _watchlistMovies : list MovieSummary;
  _watchlistIds : gset Z;
  _isLoading : bool;
  _error : option string
}.

(** What the subscriber of one of the service's observables receives. *)
Inductive Outcome :=
| Done                                  (* the [void] of add and remove *)
| Movies (movies : list MovieSummary)
| Fail (e : Error).

(** What the [HttpClient] call of the service yields. *)
Inductive Reply :=
| Success (movies : list MovieSummary)  (* the list for a GET, ignored otherwise *)
| Failure (e : Error).

(** The rest of a pipeline that waits for its reply. *)
Inductive Pending :=
| FetchPipe (caller : option nat)
| AddPipe (caller : nat) (id : Z)
| RemovePipe (caller : nat) (id : Z) (previousMovies : list MovieSummary).

Record System := {
  service : WatchlistService;
  notifications : list Notification.Notification;
  pending : gmap nat Pending;
  nextId : nat;
  sent : list (Method * string);
  delivered : list (nat * Outcome)
}.

Definition setService (w : WatchlistService) (s : System) : System :=
  {| service := w; notifications := s.(notifications); pending := s.(pending);
     nextId := s.(nextId); sent := s.(sent); delivered := s.(delivered) |}.

Definition setMovies (ms : list MovieSummary) (s : System) : System :=
  setService {| _watchlistMovies := ms; _watchlistIds := s.(service).(_watchlistIds);
                _isLoading := s.(service).(_isLoading); _error := s.(service).(_error) |} s.

Definition setIds (ids : gset Z) (s : System) : System :=
  setService {| _watchlistMovies := s.(service).(_watchlistMovies); _watchlistIds := ids;
                _isLoading := s.(service).(_isLoading); _error := s.(service).(_error) |} s.

Definition setIsLoading (b : bool) (s : System) : System :=
  setService {| _watchlistMovies := s.(service).(_watchlistMovies);
                _watchlistIds := s.(service).(_watchlistIds);
                _isLoading := b; _error := s.(service).(_error) |} s.

Definition setError (e : option string) (s : System) : System :=
  setService {| _watchlistMovies := s.(service).(_watchlistMovies);
                _watchlistIds := s.(service).(_watchlistIds);
                _isLoading := s.(service).(_isLoading); _error := e |} s.

Definition notify (t : Notification.NotificationType) (m : string) (s : System) : System :=
  {| service := s.(service); notifications := Notification.show t m s.(notifications);
     pending := s.(pending); nextId := s.(nextId); sent := s.(sent);
     delivered := s.(delivered) |}.

Definition emit (caller : nat) (o : Outcome) (s : System) : System :=
  {| service := s.(service); notifications := s.(notifications); pending := s.(pending);
     nextId := s.(nextId); sent := s.(sent); delivered := s.(delivered) ++ [(caller, o)] |}.

Definition emitTo (caller : option nat) (o : Outcome) (s : System) : System :=
  match caller with
  | Some c => emit c o s
  | None => s
  end.

Definition transmit (m : Method) (u : string) (p : Pending) (s : System) : System :=
  {| service := s.(service); notifications := s.(notifications);
     pending := <[s.(nextId) := p]> s.(pending); nextId := S s.(nextId);
     sent := s.(sent) ++ [(m, u)]; delivered := s.(delivered) |}.

Definition idsOf (movies : list MovieSummary) : gset Z :=
  list_to_set (map tmdbId movies).

Definition movieUrl (id : Z) : string :=
  apiUrl +:+ "/" +:+ Js.toString id +:+ "/watchlist".

Definition fetchWatchlist (caller : option nat) (s : System) : System :=
  transmit GET (apiUrl +:+ "/watchlist") (FetchPipe caller)
    (setError None (setIsLoading true s)).

Definition addToWatchlist (caller : nat) (id : Z) (s : System) : System :=
  transmit POST (movieUrl id) (AddPipe caller id)
    (setIds (s.(service).(_watchlistIds) ∪ {[id]}) s).

Definition removeFromWatchlist (caller : nat) (id : Z) (s : System) : System :=
  let previousMovies := s.(service).(_watchlistMovies) in
  let s1 := setMovies (filter (fun m => m.(tmdbId) ≠ id) previousMovies) s in
  let s2 := setIds (s1.(service).(_watchlistIds) ∖ {[id]}) s1 in
  transmit DELETE (movieUrl id) (RemovePipe caller id previousMovies) s2.

Definition isInWatchlist (id : Z) (s : System) : bool :=
  bool_decide (id ∈ s.(service).(_watchlistIds)).

Definition toggleWatchlist (caller : nat) (id : Z) (s : System) : System :=
  if isInWatchlist id s then removeFromWatchlist caller id s
  else addToWatchlist caller id s.

Definition clearWatchlist (s : System) : System :=
  setError None (setIds ∅ (setMovies [] s)).

(** The reply [r] reaches the pipeline [p]. *)
Definition settle (p : Pending) (r : Reply) (s : System) : System :=
  match p, r with
  | FetchPipe caller, Success movies =>
      setIsLoading false
        (emitTo caller (Movies movies) (setIds (idsOf movies) (setMovies movies s)))
  | FetchPipe caller, Failure _ =>
      setIsLoading false
        (emitTo caller (Movies []) (setError (Some "Failed to fetch watchlist") s))
  | AddPipe caller id, Success _ =>
      emit caller Done
        (fetchWatchlist None (notify Notification.success "Added to watchlist" s))
  | AddPipe caller id, Failure e =>
      emit caller (Fail e)
        (notify Notification.error "Failed to add to watchlist"
           (setError (Some "Failed to add to watchlist")
              (setIds (s.(service).(_watchlistIds) ∖ {[id]}) s)))
  | RemovePipe caller id previousMovies, Success _ =>
      emit caller Done (notify Notification.success "Removed from watchlist" s)
  | RemovePipe caller id previousMovies, Failure e =>
      emit caller (Fail e)
        (notify Notification.error "Failed to remove from watchlist"
           (setError (Some "Failed to remove from watchlist")
              (setIds (idsOf previousMovies) (setMovies previousMovies s))))
  end.

Inductive Event :=
| FetchWatchlist (caller : nat)
| AddToWatchlist (caller : nat) (id : Z)
| RemoveFromWatchlist (caller : nat) (id : Z)
| ToggleWatchlist (caller : nat) (id : Z)
| ClearWatchlist
| Settle (request : nat) (r : Reply).

Definition step (s : System) (e : Event) : option System :=
  match e with
  | FetchWatchlist caller => Some (fetchWatchlist (Some caller) s)
  | AddToWatchlist caller id => Some (addToWatchlist caller id s)
  | RemoveFromWatchlist caller id => Some (removeFromWatchlist caller id s)
  | ToggleWatchlist caller id => Some (toggleWatchlist caller id s)
  | ClearWatchlist => Some (clearWatchlist s)
  | Settle request r =>
      match s.(pending) !! request with
      | Some p =>
          Some (settle p r
                  {| service := s.(service); notifications := s.(notifications);
                     pending := delete request s.(pending); nextId := s.(nextId);
                     sent := s.(sent); delivered := s.(delivered) |})
      | None => None
      end
  end.

Fixpoint run (s : System) (es : list Event) : option System :=
  match es with
  | [] => Some s
  | e :: es' =>
      match step s e with
      | Some s' => run s' es'
      | None => None
      end
  end.

(** The membership set holds exactly the ids of the movie list. *)
Definition consistent (s : System) : Prop :=
  s.(service).(_watchlistIds) = idsOf s.(service).(_watchlistMovies).

(** The service as it is created. *)
Definition initial : System :=
  {| service := {| _watchlistMovies := []; _watchlistIds := ∅;
                   _isLoading := false; _error := None |};
     notifications := []; pending := ∅; nextId := 0%nat; sent := []; delivered := [] |}.

(** The service holding a watchlist of two movies. *)
Definition theMatrix : MovieSummary :=
  {| tmdbId := 603; title := "The Matrix"; overview := "A hacker learns what is real.";
     posterPath := None; releaseYear := 1999; genres := ["Action"; "Science Fiction"] |}.

Definition alien : MovieSummary :=
  {| tmdbId := 348; title := "Alien"; overview := "A crew answers a distress call.";
     posterPath := None; releaseYear := 1979; genres := ["Horror"; "Science Fiction"] |}.

Definition listed : System :=
  {| service := {| _watchlistMovies := [theMatrix; alien];
                   _watchlistIds := idsOf [theMatrix; alien];
                   _isLoading := false; _error := None |};
     notifications := []; pending := ∅; nextId := 0%nat; sent := []; delivered := [] |}.

End Watchlist.

(** ** RatingService *)

Module Rating.
Import Http.

Definition apiUrl : string := Auth.API_BASE_URL +:+ "/api/ratings".

(** The addresses of one movie's rating, as [deleteRating], [getUserRating]
    and [getAverageRating] build them:
    [`${this.apiUrl}/${tmdbId}`], [`${this.apiUrl}/movie/${tmdbId}`] and
    [`${this.apiUrl}/movie/${tmdbId}/average`]. *)
Definition ratingUrl (tmdbId : Z) : string :=
  apiUrl +:+ "/" +:+ Js.toString tmdbId.

Definition userRatingUrl (tmdbId : Z) : string :=
  apiUrl +:+ "/movie/" +:+ Js.toString tmdbId.

Definition averageUrl (tmdbId : Z) : string :=
  apiUrl +:+ "/movie/" +:+ Js.toString tmdbId +:+ "/average".

(** A score is a JavaScript number, that is an IEEE 754 double: fractions,
    the infinities and [NaN] are scores as much as the numbers of stars are,
    and [<] and [>] compare them as the standard has it ([false] whenever
    [NaN] is involved). *)
Record UserRating := {
  tmdbId : Z;
  title : string;
  posterPath : string;
  score : float;
  comment : option string;
  ratedDate : string
}.

Record RatingRequest := {
  request_tmdbId : Z;
  request_score : float;
  request_comment : option string
}.

Record RatingService := {
  _userRatings : list UserRating;
  _ratingsMap : gmap Z float;
  _isLoading : bool;
  _error : option string
}.

Inductive Outcome :=
| Undefined                              (* the value of [of(undefined)] and of a [void] reply *)
| Ratings (ratings : list UserRating)
| Fail (e : Error).

Inductive Reply :=
| Success (ratings : list UserRating)    (* the list for a GET, ignored otherwise *)
| Failure (e : Error).

Inductive Sent :=
| GetRatings
| PostRating (request : RatingRequest)
| DeleteRating (id : Z).

Inductive Pending :=
| FetchPipe (caller : option nat)
| RatePipe (caller : nat) (id : Z) (score : float)
| DeletePipe (caller : nat) (id : Z).

Record System := {
  service : RatingService;
  notifications : list Notification.Notification;
  pending : gmap nat Pending;
  nextId : nat;
  sent : list Sent;
  delivered : list (nat * Outcome)
}.

Definition setService (r : RatingService) (s : System) : System :=
  {| service := r; notifications := s.(notifications); pending := s.(pending);
     nextId := s.(nextId); sent := s.(sent); delivered := s.(delivered) |}.

Definition setRatings (l : list UserRating) (s : System) : System :=
  setService {| _userRatings := l; _ratingsMap := s.(service).(_ratingsMap);
                _isLoading := s.(service).(_isLoading); _error := s.(service).(_error) |} s.

Definition setMap (m : gmap Z float) (s : System) : System :=
  setService {| _userRatings := s.(service).(_userRatings); _ratingsMap := m;
                _isLoading := s.(service).(_isLoading); _error := s.(service).(_error) |} s.

Definition setIsLoading (b : bool) (s : System) : System :=
  setService {| _userRatings := s.(service).(_userRatings);
                _ratingsMap := s.(service).(_ratingsMap);
                _isLoading := b; _error := s.(service).(_error) |} s.

Definition setError (e : option string) (s : System) : System :=
  setService {| _userRatings := s.(service).(_userRatings);
                _ratingsMap := s.(service).(_ratingsMap);
                _isLoading := s.(service).(_isLoading); _error := e |} s.

Definition notify (t : Notification.NotificationType) (m : string) (s : System) : System :=
  {| service := s.(service); notifications := Notification.show t m s.(notifications);
     pending := s.(pending); nextId := s.(nextId); sent := s.(sent);
     delivered := s.(delivered) |}.

Definition emit (caller : nat) (o : Outcome) (s : System) : System :=
  {| service := s.(service); notifications := s.(notifications); pending := s.(pending);
     nextId := s.(nextId); sent := s.(sent); delivered := s.(delivered) ++ [(caller, o)] |}.

Definition emitTo (caller : option nat) (o : Outcome) (s : System) : System :=
  match caller with
  | Some c => emit c o s
  | None => s
  end.

Definition transmit (r : Sent) (p : Pending) (s : System) : System :=
  {| service := s.(service); notifications := s.(notifications);
     pending := <[s.(nextId) := p]> s.(pending); nextId := S s.(nextId);
     sent := s.(sent) ++ [r]; delivered := s.(delivered) |}.

(** [ratings.forEach(r => map.set(r.tmdbId, r.score))] on a new map *)
Definition lookupMap (ratings : list UserRating) : gmap Z float :=
  fold_left (fun m r => <[r.(tmdbId) := r.(score)]> m) ratings ∅.

Definition fetchUserRatings (caller : option nat) (s : System) : System :=
  transmit GetRatings (FetchPipe caller) (setError None (setIsLoading true s)).

Definition rateMovie (caller : nat) (id : Z) (score : float) (comment : option string)
    (s : System) : System :=
  if (score <? 1)%float || (5 <? score)%float then
    emit caller Undefined
      (notify Notification.error "Rating must be between 1 and 5"
         (setError (Some "Rating must be between 1 and 5") s))
  else
    let request :=
      {| request_tmdbId := id; request_score := score;
         request_comment := if Js.truthy comment then comment else None |} in
    transmit (PostRating request) (RatePipe caller id score)
      (setError None (setIsLoading true s)).

Definition deleteRating (caller : nat) (id : Z) (s : System) : System :=
  transmit (DeleteRating id) (DeletePipe caller id)
    (setError None (setIsLoading true s)).

Definition getCachedRating (id : Z) (s : System) : option float :=
  s.(service).(_ratingsMap) !! id.

Definition settle (p : Pending) (r : Reply) (s : System) : System :=
  match p, r with
  | FetchPipe caller, Success ratings =>
      setIsLoading false
        (emitTo caller (Ratings ratings)
           (setMap (lookupMap ratings) (setRatings ratings s)))
  | FetchPipe caller, Failure _ =>
      setIsLoading false
        (emitTo caller (Ratings []) (setError (Some "Failed to fetch ratings") s))
  | RatePipe caller id score, Success _ =>
      setIsLoading false
        (emit caller Undefined
           (fetchUserRatings None
              (notify Notification.success "Rating submitted!"
                 (setMap (<[id := score]> s.(service).(_ratingsMap)) s))))
  | RatePipe caller id score, Failure e =>
      setIsLoading false
        (emit caller (Fail e)
           (notify Notification.error "Failed to submit rating"
              (setError (Some "Failed to submit rating") s)))
  | DeletePipe caller id, Success _ =>
      setIsLoading false
        (emit caller Undefined
           (notify Notification.success "Rating removed"
              (setMap (delete id s.(service).(_ratingsMap))
                 (setRatings (filter (fun r => r.(tmdbId) ≠ id) s.(service).(_userRatings)) s))))
  | DeletePipe caller id, Failure e =>
      setIsLoading false
        (emit caller (Fail e)
           (notify Notification.error "Failed to remove rating"
              (setError (Some "Failed to delete rating") s)))
  end.

Definition hasRated (id : Z) (s : System) : bool :=
  bool_decide (is_Some (s.(service).(_ratingsMap) !! id)).

Definition clearRatings (s : System) : System :=
  setError None (setMap ∅ (setRatings [] s)).

Inductive Event :=
| FetchUserRatings (caller : nat)
| RateMovie (caller : nat) (id : Z) (score : float) (comment : option string)
| DeleteRatingOf (caller : nat) (id : Z)
| ClearRatings
| Settle (request : nat) (r : Reply).

Definition step (s : System) (e : Event) : option System :=
  match e with
  | FetchUserRatings caller => Some (fetchUserRatings (Some caller) s)
  | RateMovie caller id score comment => Some (rateMovie caller id score comment s)
  | DeleteRatingOf caller id => Some (deleteRating caller id s)
  | ClearRatings => Some (clearRatings s)
  | Settle request r =>
      match s.(pending) !! request with
      | Some p =>
          Some (settle p r
                  {| service := s.(service); notifications := s.(notifications);
                     pending := delete request s.(pending); nextId := s.(nextId);
                     sent := s.(sent); delivered := s.(delivered) |})
      | None => None
      end
  end.

Fixpoint run (s : System) (es : list Event) : option System :=
  match es with
  | [] => Some s
  | e :: es' =>
      match step s e with
      | Some s' => run s' es'
      | None => None
      end
  end.

(** The service as it is created. *)
Definition initial : System :=
  {| service := {| _userRatings := []; _ratingsMap := ∅; _isLoading := false;
                   _error := None |};
     notifications := []; pending := ∅; nextId := 0%nat; sent := []; delivered := [] |}.

End Rating.

(** ** AuthService.validatePassword

    [password.length] counts UTF-16 units; on an ASCII password, which the
    statement about [validatePassword] requires, that is the length of the
    string here. *)

Module Password.
Import Js.

Definition isLower (c : ascii) : bool :=
  let n := Ascii.nat_of_ascii c in (97 <=? n)%nat && (n <=? 122)%nat.

Definition isUpper (c : ascii) : bool :=
  let n := Ascii.nat_of_ascii c in (65 <=? n)%nat && (n <=? 90)%nat.

(** The class [[@$!%*?&]] *)
Definition isSpecial (c : ascii) : bool :=
  List.existsb (Ascii.eqb c) ["@"; "$"; "!"; "%"; "*"; "?"; "&"]%char.

(** [/[cls]/.test(s)]: some character of [s] is in the class. *)
Fixpoint test (cls : ascii -> bool) (s : string) : bool :=
  match s with
  | EmptyString => false
  | String c s' => cls c || test cls s'
  end.

Record Validation := {
  valid : bool;
  errors : list string
}.

Definition validatePassword (password : string) : Validation :=
  let errors :=
    (if (String.length password <? 8)%nat
     then ["Password must be at least 8 characters long"] else [])
    ++ (if negb (test isLower password)
        then ["Password must contain at least one lowercase letter"] else [])
    ++ (if negb (test isUpper password)
        then ["Password must contain at least one uppercase letter"] else [])
    ++ (if negb (test isDigit password)
        then ["Password must contain at least one digit"] else [])
    ++ (if negb (test isSpecial password)
        then ["Password must contain at least one special character (@$!%*?&)"]
        else []) in
  {| valid := (List.length errors =? 0)%nat; errors := errors |}.

End Password.

(** ** NotificationService, with its ids and timers *)

Module Toast.
Import Notification(NotificationType, success, error, warning, info).

Record Notification := {
  id : string;
  type : NotificationType;
  message : string;
  title : option string;
  persistent : option bool;
  duration : option Z
}.

(** The service's signal, and the timers it has handed to [setTimeout]:
    which id each will dismiss, after how many milliseconds. *)
Record NotificationService := {
  _notifications : list Notification;
  timers : list (string * Z)
}.

Definition DEFAULT_DURATIONS (t : NotificationType) : Z :=
  match t with
  | success => 3000
  | error => 5000
  | warning => 4000
  | info => 3000
  end.

Definition isPersistent (n : Notification) : bool :=
  match n.(persistent) with
  | Some b => b
  | None => false
  end.

(** [show(notification)]; [newId] is what [generateId()] returns, a text made
    of the clock and a random number.  The [id] of the argument, which the
    parameter type omits, is not read. *)
Definition show (newId : string) (notification : Notification)
    (s : NotificationService) : NotificationService :=
  let duration :=
    match notification.(duration) with
    | Some d => d
    | None => DEFAULT_DURATIONS notification.(type)
    end in
  let newNotification :=
    {| id := newId; type := notification.(type); message := notification.(message);
       title := notification.(title); persistent := notification.(persistent);
       duration := Some duration |} in
  {| _notifications := s.(_notifications) ++ [newNotification];
     timers := if isPersistent notification then s.(timers)
               else s.(timers) ++ [(newId, duration)] |}.

Definition input (t : NotificationType) (m : string) (ti : option string)
    (p : option bool) : Notification :=
  {| id := EmptyString; type := t; message := m; title := ti; persistent := p;
     duration := None |}.

(** [success(message, title)] and [error(message, title, persistent = false)] *)
Definition showSuccess (newId m : string) (ti : option string) :=
  show newId (input success m ti None).

Definition showError (newId m : string) (ti : option string) (p : bool) :=
  show newId (input error m ti (Some p)).

Definition dismiss (i : string) (s : NotificationService) : NotificationService :=
  {| _notifications := filter (fun n => n.(id) ≠ i) s.(_notifications);
     timers := s.(timers) |}.

Definition dismissAll (s : NotificationService) : NotificationService :=
  {| _notifications := []; timers := s.(timers) |}.

(** A timer set for the id [i] runs out: its callback dismisses [i].  Which
    of the timers runs out next is the clock's matter and is not modelled:
    any of them may. *)
Fixpoint dropTimer (i : string) (l : list (string * Z)) : list (string * Z) :=
  match l with
  | [] => []
  | (j, d) :: l' => if String.eqb i j then l' else (j, d) :: dropTimer i l'
  end.

Definition fire (i : string) (s : NotificationService) : NotificationService :=
  if List.existsb (fun t => String.eqb i (fst t)) s.(timers)
  then dismiss i {| _notifications := s.(_notifications);
                    timers := dropTimer i s.(timers) |}
  else s.

Definition hasNotifications (s : NotificationService) : bool :=
  (0 <? List.length s.(_notifications))%nat.

End Toast.

(** * Sample inputs

    Concrete states and messages on which the properties below are tried. *)

Module Samples.
Import Js Routes Http Auth.

Definition trendingRequest : HttpRequest :=
  newRequest GET (API_BASE_URL +:+ "/api/movies/trending") NoPayload.

Definition signedIn : AuthService :=
  {| storage := {| ACCESS_TOKEN := Some "A0"; REFRESH_TOKEN := Some "R0";
                   TOKEN_EXPIRY := Some "1700000300000"; USER_PROFILE := None |};
     _currentUser := None; _isLoggedIn := true; _isLoading := false; _error := None;
     refreshTokenSubject := None; isRefreshing := false |}.

Definition alice : User :=
  mapToUser {| username := "alice"; email := "alice@example.org"; firstname := "Alice";
               lastname := "Liddell"; followersCount := 3; followingCount := 5 |}.

(** A session stored at 1 700 000 000 000 ms whose access token lapses five
    minutes later. *)
Definition storedSession : Storage :=
  {| ACCESS_TOKEN := Some "A0"; REFRESH_TOKEN := Some "R0";
     TOKEN_EXPIRY := Some "1700000300000"; USER_PROFILE := Some (Parsed alice) |}.

(** The same session without its refresh token. *)
Definition withoutRefreshToken : Storage :=
  {| ACCESS_TOKEN := Some "A0"; REFRESH_TOKEN := None;
     TOKEN_EXPIRY := Some "1700000300000"; USER_PROFILE := Some (Parsed alice) |}.

(** A start while the token is valid, and one an hour after it lapsed. *)
Definition earlyStart : Z := 1700000000000.
Definition lateStart : Z := 1700003900000.

Definition rotated : TokenResponse :=
  {| access_token := "A1"; refresh_token := Some "R1"; expires_in := Some 300;
     refresh_expires_in := Some 1800; token_type := Some "Bearer" |}.

(** A token response without a refresh token. *)
Definition unrotated : TokenResponse :=
  {| access_token := "A1"; refresh_token := None; expires_in := Some 300;
     refresh_expires_in := Some 1800; token_type := Some "Bearer" |}.

(** A token response whose access token is the empty string. *)
Definition emptyAccess : TokenResponse :=
  {| access_token := EmptyString; refresh_token := Some "R1"; expires_in := Some 300;
     refresh_expires_in := Some 1800; token_type := Some "Bearer" |}.

Definition ratingsRequest : HttpRequest :=
  newRequest GET (API_BASE_URL +:+ "/api/ratings") NoPayload.

(** The session restored in time, and the same with a refresh under way for
    the subscriber 1. *)
Definition restored : System := boot storedSession earlyStart.
Definition refreshing : System := refreshToken (RefreshSubscriber 1) restored.

(** The restored session with the ratings request of subscriber 1 under way. *)
Definition calling : System := httpCall ratingsRequest (Subscriber 1) restored.

(** The same with a second request of the kind, of subscriber 2, under way. *)
Definition callingTwice : System := httpCall ratingsRequest (Subscriber 2) calling.

Definition firstFlight : InFlight :=
  {| flight_id := 0; flight_req := ratingsRequest; flight_caller := 1 |}.

Definition secondFlight : InFlight :=
  {| flight_id := 1; flight_req := ratingsRequest; flight_caller := 2 |}.

End Samples.

(** * Properties *)

Import Samples.

#[local] Arguments Auth.authInterceptor_request : simpl never.
#[local] Arguments Auth.isRefreshCall : simpl never.
#[local] Arguments Auth.refreshRequest : simpl never.
#[local] Arguments Auth.apiUrl : simpl never.
#[local] Arguments Routes.isPublic : simpl never.
#[local] Arguments Routes.isAuthEndpoint : simpl never.
#[local] Arguments Js.nonEmpty : simpl never.

(** ** RatingService.rateMovie *)

Section RatingFacts.
Import Rating.

Lemma SFcompare_antisym (x y : spec_float) :
  SFcompare y x = option_map CompOpp (SFcompare x y).
Proof.
  destruct x as [s1 | s1 | | s1 m1 e1], y as [s2 | s2 | | s2 m2 e2]; cbn;
    try reflexivity; try (destruct s1; reflexivity); try (destruct s2; reflexivity);
    try (destruct s1, s2; reflexivity).
  pose proof (Z.compare_antisym e1 e2) as He.
  pose proof (Pos.compare_antisym m1 m2) as Hm.
  unfold Pos.compare in Hm.
  change Pos.compare_cont with PosDef.Pos.compare_cont in Hm.
  rewrite He, Hm.
  destruct s1, s2, (e1 ?= e2); cbn; try reflexivity.
Qed.

Lemma SFcompare_defined (x y : spec_float) :
  SFcompare x x = Some Eq → SFcompare y y = Some Eq → is_Some (SFcompare x y).
Proof.
  destruct x as [s1 | s1 | | s1 m1 e1], y as [s2 | s2 | | s2 m2 e2]; cbn;
    intros Hx Hy; try discriminate; eauto.
Qed.

(** [a <= b] excludes [b < a]. *)
Lemma leb_not_ltb (a b : float) : (a <=? b)%float = true → (b <? a)%float = false.
Proof.
  rewrite FloatAxioms.leb_spec, FloatAxioms.ltb_spec. unfold SFleb, SFltb.
  rewrite (SFcompare_antisym (Prim2SF a) (Prim2SF b)).
  destruct (SFcompare (Prim2SF a) (Prim2SF b)) as [[] |]; cbn; congruence.
Qed.

(** Of two numbers neither of which is [NaN], [a <= b] or [b < a]. *)
Lemma not_leb_ltb (a b : float) :
  is_nan a = false → is_nan b = false → (a <=? b)%float = false → (b <? a)%float = true.
Proof.
  unfold is_nan. intros Ha Hb Hle.
  apply negb_false_iff in Ha, Hb. rewrite FloatAxioms.eqb_spec in Ha, Hb.
  rewrite FloatAxioms.leb_spec in Hle. rewrite FloatAxioms.ltb_spec.
  unfold SFeqb, SFleb, SFltb in *. revert Hle.
  assert (Ha' : SFcompare (Prim2SF a) (Prim2SF a) = Some Eq)
    by (destruct (SFcompare (Prim2SF a) (Prim2SF a)) as [[] |]; congruence).
  assert (Hb' : SFcompare (Prim2SF b) (Prim2SF b) = Some Eq)
    by (destruct (SFcompare (Prim2SF b) (Prim2SF b)) as [[] |]; congruence).
  destruct (SFcompare_defined _ _ Ha' Hb') as [c Hc].
  rewrite (SFcompare_antisym (Prim2SF a) (Prim2SF b)), Hc.
  destruct c; cbn; congruence.
Qed.

(** The guard of [rateMovie] lets exactly the scores from 1 to 5 and [NaN]
    pass. *)
Lemma guard_in_range (score : float) :
  (1 <=? score)%float = true → (score <=? 5)%float = true →
  (score <? 1)%float || (5 <? score)%float = false.
Proof.
  intros H1 H5. rewrite (leb_not_ltb _ _ H1), (leb_not_ltb _ _ H5). reflexivity.
Qed.

Lemma guard_out_of_range (score : float) :
  is_nan score = false →
  (1 <=? score)%float && (score <=? 5)%float = false →
  (score <? 1)%float || (5 <? score)%float = true.
Proof.
  intros Hn H. apply andb_false_iff in H as [H | H].
  - rewrite (not_leb_ltb 1 score eq_refl Hn H). reflexivity.
  - rewrite (not_leb_ltb score 5 Hn eq_refl H). apply orb_true_r.
Qed.

(** C10, as the code has it. A score that is a number outside the range
    from 1 to 5 (a fraction or an infinity as well as an integer, but not
    [NaN]) makes [rateMovie] send nothing: the requests sent and those
    awaited are as before, the cached ratings map and the ratings list are
    untouched, the error signal holds the range message, and the subscriber
    receives a value ([undefined]), not an error. *)
Theorem rateMovie_out_of_range (s : System) (caller : nat) (id : Z) (score : float)
    (comment : option string) :
  is_nan score = false →
  (1 <=? score)%float && (score <=? 5)%float = false →
  let s' := rateMovie caller id score comment s in
  s'.(sent) = s.(sent)
  ∧ s'.(pending) = s.(pending)
  ∧ s'.(service).(_ratingsMap) = s.(service).(_ratingsMap)
  ∧ s'.(service).(_userRatings) = s.(service).(_userRatings)
  ∧ s'.(service).(_error) = Some "Rating must be between 1 and 5"
  ∧ s'.(delivered) = s.(delivered) ++ [(caller, Undefined)].
Proof.
  intros Hnan Hrange. unfold rateMovie.
  rewrite (guard_out_of_range score Hnan Hrange). cbn. repeat split; reflexivity.
Qed.

Lemma rateMovie_out_of_range_witness :
  is_nan 5.5%float = false
  ∧ (1 <=? 5.5)%float && (5.5 <=? 5)%float = false
  ∧ (rateMovie 1 42 5.5%float None initial).(sent) = []
  ∧ (rateMovie 1 42 5.5%float None initial).(service).(_error)
    = Some "Rating must be between 1 and 5"
  ∧ (rateMovie 1 42 5.5%float None initial).(delivered) = [(1%nat, Undefined)].
Proof.
  assert (Hn : is_nan 5.5%float = false) by reflexivity.
  assert (H : (1 <=? 5.5)%float && (5.5 <=? 5)%float = false) by reflexivity.
  split; [exact Hn |]. split; [exact H |].
  pose proof (rateMovie_out_of_range initial 1 42 5.5%float None Hn H)
    as (Hs & _ & _ & _ & He & Hd).
  split; [exact Hs |]. split; [exact He | exact Hd].
Defined.

(** C10, as the specification has it, fails: [NaN] is not between 1 and 5,
    yet neither [NaN < 1] nor [NaN > 5] holds, so the guard lets it pass.
    The rating is posted with [NaN] as its score, no error is set, and when
    the server accepts the request [NaN] is the movie's cached rating. *)
Lemma rateMovie_posts_nan :
  (1 <=? nan)%float && (nan <=? 5)%float = false
  ∧ (rateMovie 1 42 nan None initial).(sent)
    = [PostRating {| request_tmdbId := 42; request_score := nan;
                     request_comment := None |}]
  ∧ (rateMovie 1 42 nan None initial).(service).(_error) = None
  ∧ (rateMovie 1 42 nan None initial).(delivered) = []
  ∧ getCachedRating 42 <$> run initial [RateMovie 1 42 nan None; Settle 0 (Success [])]
    = Some (Some nan).
Proof. repeat split; vm_compute; reflexivity. Qed.

(** Inside the range the request goes out. *)
Lemma rateMovie_in_range (s : System) (caller : nat) (id : Z) (score : float)
    (comment : option string) :
  (1 <=? score)%float = true → (score <=? 5)%float = true →
  (rateMovie caller id score comment s).(sent)
  = s.(sent) ++ [PostRating {| request_tmdbId := id; request_score := score;
                               request_comment :=
                                 if Js.truthy comment then comment else None |}].
Proof.
  intros H1 H5. unfold rateMovie. rewrite (guard_in_range score H1 H5). reflexivity.
Qed.

End RatingFacts.

(** ** WatchlistService *)

Section WatchlistFacts.
Import Watchlist.

(** C6. When a movie that is not in the membership set is added and the
    request fails, the rollback leaves the membership set (and the movie
    list) exactly as they were before the call, and the subscriber receives
    the error of the request. *)
Theorem addToWatchlist_failure_restores (s : System) (caller : nat) (id : Z)
    (e : Http.Error) :
  id ∉ s.(service).(_watchlistIds) →
  ∃ s', run s [AddToWatchlist caller id; Settle s.(nextId) (Failure e)] = Some s'
        ∧ s'.(service).(_watchlistIds) = s.(service).(_watchlistIds)
        ∧ s'.(service).(_watchlistMovies) = s.(service).(_watchlistMovies)
        ∧ s'.(delivered) = s.(delivered) ++ [(caller, Fail e)].
Proof.
  intros Hfresh. cbn. rewrite lookup_insert_eq. eexists. split; [reflexivity |].
  cbn. repeat split.
  apply set_eq. intros x.
  rewrite elem_of_difference, elem_of_union, elem_of_singleton.
  split; [tauto |]. intros Hx. split; [tauto |]. congruence.
Qed.

Lemma addToWatchlist_failure_restores_witness :
  (7 ∉ initial.(service).(_watchlistIds))
  ∧ (∃ s', run initial [AddToWatchlist 1 7; Settle 0 (Failure (Http.JsError "offline"))]
           = Some s'
           ∧ s'.(service).(_watchlistIds) = initial.(service).(_watchlistIds)
           ∧ s'.(service).(_watchlistMovies) = initial.(service).(_watchlistMovies)
           ∧ s'.(delivered) = initial.(delivered) ++ [(1%nat, Fail (Http.JsError "offline"))]).
Proof.
  assert (H : 7 ∉ initial.(service).(_watchlistIds)) by (cbn; apply not_elem_of_empty).
  split; [exact H |].
  exact (addToWatchlist_failure_restores initial 1 7 (Http.JsError "offline") H).
Defined.

(** While the request is in flight the movie is shown as a member. *)
Lemma addToWatchlist_optimistic (s : System) (caller : nat) (id : Z) :
  isInWatchlist id (addToWatchlist caller id s) = true.
Proof.
  unfold isInWatchlist. apply bool_decide_eq_true. cbn.
  apply elem_of_union_r, elem_of_singleton. reflexivity.
Qed.

(** The rollback of a failed removal rebuilds the membership set from the
    movie list saved at the call, whatever the set held then. *)
Lemma removeFromWatchlist_failure_ids (s : System) (caller : nat) (id : Z)
    (previousMovies : list MovieSummary) (e : Http.Error) :
  (settle (RemovePipe caller id previousMovies) (Failure e) s).(service).(_watchlistIds)
  = idsOf previousMovies.
Proof. reflexivity. Qed.

(** C5. A movie that is in neither the membership set nor the movie list
    is added and, before that request settles, removed; the add request then
    succeeds and the remove request fails.  The specification wants the movie
    to be a member afterwards; in the code the rollback of the removal takes
    the members from the movie list saved when the removal began, which the
    optimistic step of the add never touched, and the movie is not a member. *)
Theorem overlapping_add_remove_loses_member :
  isInWatchlist 7 (addToWatchlist 1 7 initial) = true
  ∧ (isInWatchlist 7 <$>
       run initial [AddToWatchlist 1 7; RemoveFromWatchlist 2 7;
                    Settle 0 (Success []);
                    Settle 1 (Failure (Http.HttpErrorResponse 500 (movieUrl 7) Http.NoErrorPayload))])
    = Some false.
Proof. split; vm_compute; reflexivity. Qed.

(** The same for every state and movie, and also when the list that the
    successful add asks for arrives before the removal fails. *)
Lemma overlapping_add_remove_general (s : System) (c1 c2 : nat) (id : Z)
    (e : Http.Error) (refreshed : list (list MovieSummary)) :
  id ∉ idsOf s.(service).(_watchlistMovies) →
  (List.length refreshed ≤ 1)%nat →
  ∃ s', run s ([AddToWatchlist c1 id; RemoveFromWatchlist c2 id;
                Settle s.(nextId) (Success [])]
               ++ map (fun l => Settle (S (S s.(nextId))) (Success l)) refreshed
               ++ [Settle (S s.(nextId)) (Failure e)]) = Some s'
        ∧ isInWatchlist id s' = false.
Proof.
  intros Hout Hlen.
  destruct refreshed as [| l [| ? ?]]; [| | cbn in Hlen; lia].
  - cbn. rewrite lookup_insert_ne by lia. rewrite lookup_insert_eq. cbn.
    rewrite lookup_insert_ne by lia. rewrite lookup_delete_ne by lia.
    rewrite lookup_insert_eq. eexists. split; [reflexivity |].
    apply bool_decide_eq_false. exact Hout.
  - cbn. rewrite lookup_insert_ne by lia. rewrite lookup_insert_eq. cbn.
    rewrite lookup_insert_eq. cbn.
    rewrite lookup_delete_ne by lia. rewrite lookup_insert_ne by lia.
    rewrite lookup_delete_ne by lia. rewrite lookup_insert_eq.
    eexists. split; [reflexivity |].
    apply bool_decide_eq_false. exact Hout.
Qed.

End WatchlistFacts.

(** ** The interceptor on the way out *)

Section InterceptorFacts.
Import Js Routes Http Auth.

Lemma authInterceptor_request_url (a : AuthService) (req : HttpRequest) :
  (authInterceptor_request a req).(url) = req.(url).
Proof.
  unfold authInterceptor_request.
  destruct (getAccessToken a) as [token |]; [| reflexivity].
  destruct (nonEmpty token && negb (isPublic req.(url))); reflexivity.
Qed.

(** Without a stored token no request is changed. *)
Lemma authInterceptor_request_anonymous (a : AuthService) (req : HttpRequest) :
  getAccessToken a = None → authInterceptor_request a req = req.
Proof. intros H. unfold authInterceptor_request. rewrite H. reflexivity. Qed.

(** A request to a path that is not public carries the stored token. *)
Lemma authInterceptor_request_private (a : AuthService) (req : HttpRequest)
    (token : string) :
  getAccessToken a = Some token → nonEmpty token = true →
  isPublic req.(url) = false →
  (authInterceptor_request a req).(headers) !! "Authorization"
  = Some ("Bearer " +:+ token).
Proof.
  intros Ht Hne Hp. unfold authInterceptor_request. rewrite Ht, Hne, Hp. cbn.
  apply lookup_insert_eq.
Qed.

(** On a public path the guard of the interceptor fails whatever is stored. *)
Lemma authInterceptor_request_public (a : AuthService) (req : HttpRequest) :
  isPublic req.(url) = true → authInterceptor_request a req = req.
Proof.
  intros Hp. unfold authInterceptor_request. rewrite Hp.
  destruct (getAccessToken a) as [token |]; [| reflexivity].
  rewrite andb_false_r. reflexivity.
Qed.

(** C8, as the specification has it, fails: with the access token "A0"
    stored, the request for the public path /api/movies/trending leaves the
    interceptor without an Authorization header. *)
Lemma public_request_gets_no_bearer :
  isPublic trendingRequest.(url) = true
  ∧ getAccessToken signedIn = Some "A0"
  ∧ (authInterceptor_request signedIn trendingRequest).(headers) !! "Authorization" = None.
Proof. vm_compute. repeat split; reflexivity. Qed.

(** The refresh call itself passes the interceptor untouched in both
    directions: its path is public, so no header is set, and it is an
    authentication endpoint, so its failure is not answered by a refresh.
    This is what [RefreshPost] builds on. *)
Lemma refreshRequest_public (refreshToken : string) :
  isPublic (refreshRequest refreshToken).(url) = true.
Proof. vm_compute. reflexivity. Qed.

Lemma refreshRequest_not_intercepted (a : AuthService) (refreshToken : string)
    (error : Error) :
  authInterceptor_request a (refreshRequest refreshToken) = refreshRequest refreshToken
  ∧ authInterceptor_refreshes a (refreshRequest refreshToken) error = false.
Proof.
  split.
  - apply authInterceptor_request_public, refreshRequest_public.
  - unfold authInterceptor_refreshes.
    replace (isAuthEndpoint (refreshRequest refreshToken).(url)) with true
      by (vm_compute; reflexivity).
    cbn. rewrite andb_false_r. reflexivity.
Qed.

End InterceptorFacts.

(** ** AuthService: what the pieces leave alone *)

Section AuthFrames.
Import Js Routes Http Auth.

Lemma isAuthEndpoint_refresh :
  isAuthEndpoint (apiUrl +:+ "/refresh") = true.
Proof. vm_compute. reflexivity. Qed.

(** A successful refresh reaches its consumers without touching the
    service's fields. *)
Lemma consume_next_auth (c : Consumer) (b : Body) (s : System) :
  (consume c (Next b) s).(auth) = s.(auth).
Proof. destruct c; reflexivity. Qed.

Lemma waiterReceives_token_auth (token : string) (c : Consumer) (s : System) :
  nonEmpty token = true → (waiterReceives token c s).(auth) = s.(auth).
Proof.
  intros H. unfold waiterReceives, waiterOutcome. rewrite H. apply consume_next_auth.
Qed.

Lemma fold_waiters_auth (token : string) (ws : list Consumer) (s : System) :
  nonEmpty token = true →
  (fold_left (fun s' c => waiterReceives token c s') ws s).(auth) = s.(auth).
Proof.
  intros H. revert s. induction ws as [| c ws IH]; intros s; cbn; [reflexivity |].
  rewrite IH. by apply waiterReceives_token_auth.
Qed.

Lemma notifyWaiters_token_auth (token : string) (s : System) :
  nonEmpty token = true → (notifyWaiters token s).(auth) = s.(auth).
Proof. intros H. unfold notifyWaiters. by rewrite fold_waiters_auth. Qed.

End AuthFrames.

(** The cases of the constructor, by what is stored. *)
Ltac boot_cases st :=
  unfold Auth.boot, Auth.initializeAuthState, Auth.refreshTokenInConstructor,
    Auth.fetchUserProfileInConstructor, Auth.httpCallInConstructor, Auth.refreshFailed,
    Auth.notifyWaiters, Auth.getAccessToken, Auth.getRefreshToken;
  destruct st as [[token |] [rt |] [expiry |] [[user | text] |]]; cbn;
  repeat match goal with
         | |- context [if ?b then _ else _] => destruct b; cbn
         end.

(** ** Invariants of the reachable states *)

Section Invariants.
Import Js Routes Http Auth.

Lemma sameCoordinator_refl (s : System) : sameCoordinator s s.
Proof. repeat split. Qed.

Lemma sameCoordinator_trans (s1 s2 s3 : System) :
  sameCoordinator s1 s2 → sameCoordinator s2 s3 → sameCoordinator s1 s3.
Proof. unfold sameCoordinator. intros (-> & -> & ->) (-> & -> & ->). repeat split. Qed.

Lemma sameCoordinator_coordinated (s s' : System) :
  sameCoordinator s s' → coordinated s → coordinated s'.
Proof. unfold sameCoordinator, coordinated. intros (-> & -> & ->). tauto. Qed.

Ltac crush_kept :=
  unfold tokenKept in *; cbn in *;
  try solve [ intros; first [ discriminate | assumption | eexists; reflexivity | eauto ] ].

Lemma logout_kept (s : System) : tokenKept (logout s).
Proof. unfold tokenKept, logout. cbn. discriminate. Qed.

Lemma logout_sameCoordinator (s : System) : sameCoordinator s (logout s).
Proof.
  unfold logout. destruct (getRefreshToken (auth s)) as [rt |]; [| repeat split].
  destruct (nonEmpty rt); repeat split.
Qed.

Lemma afterProfile_kept (after : AfterProfile) (o : Outcome) (s : System) :
  tokenKept s → tokenKept (afterProfile after o s).
Proof.
  intros H. destruct after as [[c |] | response c |]; try destruct o; crush_kept.
Qed.

Lemma afterProfile_sameCoordinator (after : AfterProfile) (o : Outcome) (s : System) :
  sameCoordinator s (afterProfile after o s).
Proof. destruct after as [[c |] | response c |]; try destruct o; repeat split. Qed.

Lemma deliver_kept (pipe : Pipe) (o : Outcome) (s : System) :
  tokenKept s → tokenKept (deliver pipe o s).
Proof.
  intros H. destruct pipe as [c | | c | c | after].
  - crush_kept.
  - destruct o; crush_kept.
  - destruct o; crush_kept.
  - destruct o as [[] | e]; crush_kept.
  - destruct o as [[] | e]; try exact H.
    + apply afterProfile_kept. crush_kept.
    + cbn. apply afterProfile_kept. destruct (isStatus 401 e); crush_kept.
Qed.

Lemma deliver_sameCoordinator (pipe : Pipe) (o : Outcome) (s : System) :
  sameCoordinator s (deliver pipe o s).
Proof.
  destruct pipe as [c | | c | c | after].
  - repeat split.
  - destruct o; repeat split.
  - destruct o; repeat split.
  - destruct o as [[] | e]; repeat split.
  - destruct o as [[] | e]; try apply sameCoordinator_refl.
    + eapply sameCoordinator_trans; [| apply afterProfile_sameCoordinator]. repeat split.
    + cbn. eapply sameCoordinator_trans; [| apply afterProfile_sameCoordinator].
      destruct (isStatus 401 e); repeat split.
Qed.

Lemma consume_kept (c : Consumer) (o : Outcome) (s : System) :
  tokenKept s → tokenKept (consume c o s).
Proof.
  intros H. destruct c as [req pipe | | caller]; destruct o; try exact H.
  - cbn. apply deliver_kept, logout_kept.
  - cbn. crush_kept.
Qed.

Lemma consume_sameCoordinator (c : Consumer) (o : Outcome) (s : System) :
  sameCoordinator s (consume c o s).
Proof.
  destruct c as [req pipe | | caller]; destruct o; try apply sameCoordinator_refl.
  - repeat split.
  - cbn. eapply sameCoordinator_trans; [apply logout_sameCoordinator |].
    apply deliver_sameCoordinator.
  - repeat split.
  - repeat split.
  - repeat split.
  - repeat split.
Qed.

Lemma fold_waiters_kept (token : string) (ws : list Consumer) (s : System) :
  tokenKept s → tokenKept (fold_left (λ s' c, waiterReceives token c s') ws s).
Proof.
  revert s. induction ws as [| c ws IH]; intros s H; cbn; [exact H |].
  apply IH, consume_kept, H.
Qed.

Lemma fold_waiters_sameCoordinator (token : string) (ws : list Consumer) (s : System) :
  sameCoordinator s (fold_left (λ s' c, waiterReceives token c s') ws s).
Proof.
  revert s. induction ws as [| c ws IH]; intros s; cbn; [apply sameCoordinator_refl |].
  eapply sameCoordinator_trans; [apply consume_sameCoordinator | apply IH].
Qed.

Lemma notifyWaiters_kept (token : string) (s : System) :
  tokenKept s → tokenKept (notifyWaiters token s).
Proof. intros H. unfold notifyWaiters. apply fold_waiters_kept. exact H. Qed.

(** After a notification no subscriber is left. *)
Lemma notifyWaiters_coordinator (token : string) (s : System) :
  sameCoordinator (setWaiters [] s) (notifyWaiters token s).
Proof. unfold notifyWaiters. apply fold_waiters_sameCoordinator. Qed.

Lemma refreshToken_kept (c : Consumer) (s : System) :
  tokenKept s → tokenKept (refreshToken c s).
Proof.
  intros H. unfold refreshToken.
  destruct (getRefreshToken (auth s)) as [rt |];
    [destruct (nonEmpty rt) |]; try (apply consume_kept; crush_kept).
  destruct (isRefreshing (auth s)); [| exact H].
  destruct (refreshTokenSubject (auth s)); [| exact H].
  apply consume_kept, H.
Qed.

Lemma refreshToken_coordinated (c : Consumer) (s : System) :
  coordinated s → coordinated (refreshToken c s).
Proof.
  intros H. unfold refreshToken.
  destruct (getRefreshToken (auth s)) as [rt |];
    [destruct (nonEmpty rt) |];
    try (eapply sameCoordinator_coordinated; [apply consume_sameCoordinator |];
         eapply sameCoordinator_coordinated; [| exact H]; repeat split).
  destruct (isRefreshing (auth s)) eqn:Hr.
  - destruct (refreshTokenSubject (auth s)) eqn:Hs.
    + eapply sameCoordinator_coordinated; [apply consume_sameCoordinator | exact H].
    + unfold coordinated. cbn. rewrite Hr, Hs. split; [discriminate | reflexivity].
  - unfold coordinated. cbn. split; [discriminate | reflexivity].
Qed.

Lemma refreshSucceeded_kept (response : TokenResponse) (c : Consumer) (s : System) :
  tokenKept (refreshSucceeded response c s).
Proof.
  unfold refreshSucceeded. apply consume_kept, notifyWaiters_kept. crush_kept.
Qed.

Lemma refreshFailed_kept (error : Error) (c : Consumer) (s : System) :
  tokenKept (refreshFailed error c s).
Proof. unfold refreshFailed. apply consume_kept. crush_kept. Qed.

Lemma ended_coordinated (token : string) (s : System) :
  coordinated (notifyWaiters token (onAuth (setRefreshing false (Some token)) s)).
Proof.
  destruct (notifyWaiters_coordinator token (onAuth (setRefreshing false (Some token)) s))
    as (Hw & Hr & _).
  unfold coordinated. rewrite Hw, Hr. cbn. split; [reflexivity | discriminate].
Qed.

Lemma refreshSucceeded_coordinated (response : TokenResponse) (c : Consumer) (s : System) :
  coordinated (refreshSucceeded response c s).
Proof.
  unfold refreshSucceeded.
  eapply sameCoordinator_coordinated; [apply consume_sameCoordinator |].
  apply (ended_coordinated response.(access_token)
           (onAuth (storeTokens s.(now) response) s)).
Qed.

Lemma refreshFailed_coordinated (error : Error) (c : Consumer) (s : System) :
  coordinated (refreshFailed error c s).
Proof.
  unfold refreshFailed.
  eapply sameCoordinator_coordinated; [apply consume_sameCoordinator |].
  eapply sameCoordinator_coordinated; [| apply (ended_coordinated EmptyString s)].
  repeat split.
Qed.

Lemma respond_kept (p : Pending) (r : Response) (s : System) :
  tokenKept s → tokenKept (respond p r s).
Proof.
  intros H. destruct p as [req pipe | req pipe | c]; cbn.
  - destruct r as [b | status e]; cbn; [by apply deliver_kept |].
    destruct (authInterceptor_refreshes _ _ _);
      [by apply refreshToken_kept | by apply deliver_kept].
  - destruct r as [b | status e]; cbn; [by apply deliver_kept |].
    apply deliver_kept, logout_kept.
  - destruct r as [[] | status e]; try exact H.
    + apply refreshSucceeded_kept.
    + apply refreshFailed_kept.
Qed.

Lemma respond_coordinated (p : Pending) (r : Response) (s : System) :
  coordinated s → coordinated (respond p r s).
Proof.
  intros H. destruct p as [req pipe | req pipe | c]; cbn.
  - destruct r as [b | status e]; cbn.
    + eapply sameCoordinator_coordinated; [apply deliver_sameCoordinator | exact H].
    + destruct (authInterceptor_refreshes _ _ _); [by apply refreshToken_coordinated |].
      eapply sameCoordinator_coordinated; [apply deliver_sameCoordinator | exact H].
  - destruct r as [b | status e]; cbn.
    + eapply sameCoordinator_coordinated; [apply deliver_sameCoordinator | exact H].
    + eapply sameCoordinator_coordinated; [apply deliver_sameCoordinator |].
      eapply sameCoordinator_coordinated; [apply logout_sameCoordinator | exact H].
  - destruct r as [[] | status e]; try exact H.
    + apply refreshSucceeded_coordinated.
    + apply refreshFailed_coordinated.
Qed.

Lemma step_kept (s s' : System) (e : Event) :
  step s e = Some s' → tokenKept s → tokenKept s'.
Proof.
  intros Hstep H. destruct e; cbn in Hstep.
  - injection Hstep as <-. exact H.
  - injection Hstep as <-. exact H.
  - injection Hstep as <-. apply logout_kept.
  - injection Hstep as <-. by apply refreshToken_kept.
  - injection Hstep as <-. exact H.
  - injection Hstep as <-. exact H.
  - destruct (pending s !! id) as [p |]; [| discriminate].
    destruct (wellTyped p r); [| discriminate].
    injection Hstep as <-. apply respond_kept. exact H.
  - destruct (0 <=? ms); [| discriminate]. injection Hstep as <-. exact H.
Qed.

Lemma step_coordinated (s s' : System) (e : Event) :
  step s e = Some s' → coordinated s → coordinated s'.
Proof.
  intros Hstep H. destruct e; cbn in Hstep.
  - injection Hstep as <-. exact H.
  - injection Hstep as <-. exact H.
  - injection Hstep as <-.
    eapply sameCoordinator_coordinated; [apply logout_sameCoordinator | exact H].
  - injection Hstep as <-. by apply refreshToken_coordinated.
  - injection Hstep as <-. exact H.
  - injection Hstep as <-. exact H.
  - destruct (pending s !! id) as [p |]; [| discriminate].
    destruct (wellTyped p r); [| discriminate].
    injection Hstep as <-. apply respond_coordinated. exact H.
  - destruct (0 <=? ms); [| discriminate]. injection Hstep as <-. exact H.
Qed.

(** The constructor sends nothing and leaves no refresh running. *)
Lemma boot_idle (st : Storage) (t : Z) :
  (boot st t).(pending) = ∅
  ∧ (boot st t).(nextId) = 0%nat
  ∧ (boot st t).(sent) = []
  ∧ (boot st t).(waiters) = []
  ∧ (boot st t).(delivered) = []
  ∧ (boot st t).(auth).(isRefreshing) = false.
Proof. boot_cases st; repeat split. Qed.

Lemma boot_kept (st : Storage) (t : Z) : tokenKept (boot st t).
Proof. unfold tokenKept. boot_cases st; intros H; try discriminate H; eauto. Qed.

Lemma boot_coordinated (st : Storage) (t : Z) : coordinated (boot st t).
Proof.
  destruct (boot_idle st t) as (_ & _ & _ & Hw & _ & Hr).
  unfold coordinated. rewrite Hw, Hr. split; [reflexivity | discriminate].
Qed.

Lemma reachable_kept (s : System) : reachable s → tokenKept s.
Proof.
  induction 1 as [st t | s e s' _ IH Hstep]; [apply boot_kept |].
  eapply step_kept; eassumption.
Qed.

(** In every reachable state the queue of waiting callers is empty unless
    a refresh runs, which is what the theorems on the refresh assume. *)
Lemma reachable_coordinated (s : System) : reachable s → coordinated s.
Proof.
  induction 1 as [st t | s e s' _ IH Hstep]; [apply boot_coordinated |].
  eapply step_coordinated; eassumption.
Qed.

(** *** At most one refresh call in the network *)

Lemma grows_refl (s : System) : grows s s.
Proof. split; [lia |]. split; [reflexivity |]. intros i. left. reflexivity. Qed.

Lemma grows_trans (s1 s2 s3 : System) : grows s1 s2 → grows s2 s3 → grows s1 s3.
Proof.
  intros (Hn1 & Hr1 & Hp1) (Hn2 & Hr2 & Hp2).
  split; [lia |]. split; [congruence |].
  intros i. destruct (Hp2 i) as [Heq2 | (Hi2 & p & Hp & Hno)].
  - destruct (Hp1 i) as [Heq1 | (Hi1 & p & Hp & Hno)].
    + left. congruence.
    + right. split; [lia |]. exists p. split; [congruence | exact Hno].
  - right. split; [lia |]. exists p. split; assumption.
Qed.

Lemma grows_frame (s s' : System) :
  s'.(nextId) = s.(nextId) → s'.(pending) = s.(pending) →
  s'.(auth).(isRefreshing) = s.(auth).(isRefreshing) → grows s s'.
Proof.
  intros Hn Hp Hr. split; [lia |]. split; [exact Hr |]. intros i. left. by rewrite Hp.
Qed.

Lemma grows_transmit (req : HttpRequest) (p : Pending) (s : System) :
  isRefreshPost p = false → grows s (transmit req p s).
Proof.
  intros Hno. split; [cbn; lia |]. split; [reflexivity |].
  intros i. cbn. destruct (decide (i = s.(nextId))) as [-> | Hne].
  - right. split; [lia |]. exists p. split; [apply lookup_insert_eq | exact Hno].
  - left. by apply lookup_insert_ne.
Qed.

Lemma grows_singleFlight (s s' : System) : singleFlight s → grows s s' → singleFlight s'.
Proof.
  intros (Hfresh & Huniq & Hflag) (Hn & Hr & Hp).
  assert (Hold : ∀ i p, s'.(pending) !! i = Some p → isRefreshPost p = true →
                        s.(pending) !! i = Some p).
  { intros i p Hi Hyes. destruct (Hp i) as [Heq | (_ & q & Hq & Hno)]; [congruence |].
    congruence. }
  split; [| split].
  - intros i Hi. destruct (Hp i) as [Heq | (Hrange & _)]; [| lia].
    rewrite Heq in Hi. specialize (Hfresh i Hi). lia.
  - intros i j p q Hi Hj Hpy Hqy. eapply Huniq; eauto.
  - intros i p Hi Hyes. rewrite Hr. eapply Hflag; eauto.
Qed.

Lemma grows_quiet (s s' : System) : quiet s → grows s s' → quiet s'.
Proof.
  intros (Hfresh & Hno) (Hn & Hr & Hp). split.
  - intros i Hi. destruct (Hp i) as [Heq | (Hrange & _)]; [| lia].
    rewrite Heq in Hi. specialize (Hfresh i Hi). lia.
  - intros i p Hi. destruct (Hp i) as [Heq | (_ & q & Hq & Hqno)].
    + eapply Hno. by rewrite <- Heq.
    + congruence.
Qed.

(** A state without a refresh call in the network is fine whatever the flag. *)
Lemma quiet_singleFlight (s : System) : quiet s → singleFlight s.
Proof.
  intros (Hfresh & Hno). split; [exact Hfresh |]. split.
  - intros i j p q Hi _ Hyes _. rewrite (Hno i p Hi) in Hyes. discriminate.
  - intros i p Hi Hyes. rewrite (Hno i p Hi) in Hyes. discriminate.
Qed.

Lemma quiet_onAuth (f : AuthService → AuthService) (s : System) :
  quiet s → quiet (onAuth f s).
Proof. intros H. exact H. Qed.

Lemma logout_grows (s : System) : grows s (logout s).
Proof.
  unfold logout. destruct (getRefreshToken (auth s)) as [rt |];
    [destruct (nonEmpty rt) |]; try (by apply grows_frame).
  apply (grows_trans _ (httpCall (newRequest POST (apiUrl +:+ "/logout") (LogoutPayload rt))
                          LogoutPipe s)).
  - apply grows_transmit. reflexivity.
  - by apply grows_frame.
Qed.

Lemma afterProfile_grows (after : AfterProfile) (o : Outcome) (s : System) :
  grows s (afterProfile after o s).
Proof. destruct after as [[c |] | response c |]; try destruct o; by apply grows_frame. Qed.

Lemma deliver_grows (pipe : Pipe) (o : Outcome) (s : System) :
  grows s (deliver pipe o s).
Proof.
  destruct pipe as [c | | c | c | after].
  - by apply grows_frame.
  - destruct o; apply grows_refl.
  - destruct o; by apply grows_frame.
  - destruct o as [[] | e]; try (by apply grows_frame).
    cbn. eapply grows_trans; [| apply grows_transmit; reflexivity]. by apply grows_frame.
  - destruct o as [[] | e]; try apply grows_refl.
    + eapply grows_trans; [| apply afterProfile_grows]. by apply grows_frame.
    + cbn. eapply grows_trans; [| apply afterProfile_grows].
      destruct (isStatus 401 e); by apply grows_frame.
Qed.

Lemma consume_grows (c : Consumer) (o : Outcome) (s : System) :
  grows s (consume c o s).
Proof.
  destruct c as [req pipe | | caller]; destruct o; cbn.
  - apply grows_transmit. reflexivity.
  - eapply grows_trans; [apply logout_grows | apply deliver_grows].
  - apply grows_transmit. reflexivity.
  - by apply grows_frame.
  - by apply grows_frame.
  - by apply grows_frame.
Qed.

Lemma fold_waiters_grows (token : string) (ws : list Consumer) (s : System) :
  grows s (fold_left (λ s' c, waiterReceives token c s') ws s).
Proof.
  revert s. induction ws as [| c ws IH]; intros s; cbn; [apply grows_refl |].
  eapply grows_trans; [apply consume_grows | apply IH].
Qed.

Lemma notifyWaiters_grows (token : string) (s : System) :
  grows s (notifyWaiters token s).
Proof.
  unfold notifyWaiters. eapply grows_trans; [| apply fold_waiters_grows].
  by apply grows_frame.
Qed.

Lemma refreshToken_singleFlight (c : Consumer) (s : System) :
  singleFlight s → singleFlight (refreshToken c s).
Proof.
  intros H. unfold refreshToken.
  destruct (getRefreshToken (auth s)) as [rt |];
    [destruct (nonEmpty rt) |];
    try (eapply grows_singleFlight; [exact H |];
         eapply grows_trans; [| apply consume_grows]; by apply grows_frame).
  destruct (isRefreshing (auth s)) eqn:Hr.
  - destruct (refreshTokenSubject (auth s)).
    + eapply grows_singleFlight; [exact H | apply consume_grows].
    + eapply grows_singleFlight; [exact H | by apply grows_frame].
  - destruct H as (Hfresh & Huniq & Hflag).
    assert (Hnone : s.(pending) !! s.(nextId) = None).
    { destruct (pending s !! nextId s) eqn:Hl; [| reflexivity].
      specialize (Hfresh (nextId s) (mk_is_Some _ _ Hl)). lia. }
    split; [| split]; cbn.
    + intros i [p Hi]. destruct (decide (i = s.(nextId))) as [-> | Hne]; [lia |].
      rewrite lookup_insert_ne in Hi by congruence.
      specialize (Hfresh i (mk_is_Some _ _ Hi)). lia.
    + intros i j p q Hi Hj Hp Hq.
      destruct (decide (i = s.(nextId))) as [-> | Hi'];
        destruct (decide (j = s.(nextId))) as [-> | Hj']; try reflexivity.
      * rewrite lookup_insert_ne in Hj by congruence.
        specialize (Hflag j q Hj Hq). congruence.
      * rewrite lookup_insert_ne in Hi by congruence.
        specialize (Hflag i p Hi Hp). congruence.
      * rewrite lookup_insert_ne in Hi, Hj by congruence. eapply Huniq; eauto.
    + reflexivity.
Qed.

Lemma delete_singleFlight (id : nat) (s : System) :
  singleFlight s → singleFlight (setPending (delete id s.(pending)) s).
Proof.
  intros (Hfresh & Huniq & Hflag). split; [| split]; cbn.
  - intros i [p Hi]. apply lookup_delete_Some in Hi as [_ Hi]. apply Hfresh. eauto.
  - intros i j p q Hi Hj. apply lookup_delete_Some in Hi as [_ Hi].
    apply lookup_delete_Some in Hj as [_ Hj]. eauto.
  - intros i p Hi. apply lookup_delete_Some in Hi as [_ Hi]. eauto.
Qed.

(** Once the answer to the refresh call is taken out, none is left. *)
Lemma delete_refresh_quiet (id : nat) (c : Consumer) (s : System) :
  singleFlight s → s.(pending) !! id = Some (RefreshPost c) →
  quiet (setPending (delete id s.(pending)) s).
Proof.
  intros (Hfresh & Huniq & Hflag) Hid. split; cbn.
  - intros i [p Hi]. apply lookup_delete_Some in Hi as [_ Hi]. apply Hfresh. eauto.
  - intros i p Hi. apply lookup_delete_Some in Hi as [Hne Hi].
    destruct (isRefreshPost p) eqn:Hp; [| reflexivity].
    exfalso. apply Hne. eapply Huniq; eauto.
Qed.

Lemma step_singleFlight (s s' : System) (e : Event) :
  step s e = Some s' → singleFlight s → singleFlight s'.
Proof.
  intros Hstep H. destruct e; cbn in Hstep.
  - injection Hstep as <-. eapply grows_singleFlight; [exact H |].
    eapply grows_trans; [| apply grows_transmit; reflexivity]. by apply grows_frame.
  - injection Hstep as <-. eapply grows_singleFlight; [exact H |].
    eapply grows_trans; [| apply grows_transmit; reflexivity]. by apply grows_frame.
  - injection Hstep as <-. eapply grows_singleFlight; [exact H | apply logout_grows].
  - injection Hstep as <-. by apply refreshToken_singleFlight.
  - injection Hstep as <-. eapply grows_singleFlight; [exact H |].
    apply grows_transmit. reflexivity.
  - injection Hstep as <-. eapply grows_singleFlight; [exact H |].
    apply grows_transmit. reflexivity.
  - destruct (pending s !! id) as [p |] eqn:Hid; [| discriminate].
    destruct (wellTyped p r); [| discriminate].
    injection Hstep as <-.
    destruct p as [req pipe | req pipe | c]; cbn.
    + apply (delete_singleFlight id) in H.
      destruct r as [b | status err]; cbn.
      * eapply grows_singleFlight; [exact H | apply deliver_grows].
      * destruct (authInterceptor_refreshes _ _ _);
          [by apply refreshToken_singleFlight |].
        eapply grows_singleFlight; [exact H | apply deliver_grows].
    + apply (delete_singleFlight id) in H.
      destruct r as [b | status err]; cbn.
      * eapply grows_singleFlight; [exact H | apply deliver_grows].
      * eapply grows_singleFlight; [exact H |].
        eapply grows_trans; [apply logout_grows | apply deliver_grows].
    + pose proof (delete_refresh_quiet id c s H Hid) as Hq.
      apply quiet_singleFlight.
      destruct r as [[] | status err]; try exact Hq.
      * unfold refreshSucceeded. eapply grows_quiet; [| apply consume_grows].
        eapply grows_quiet; [| apply notifyWaiters_grows]. exact Hq.
      * unfold refreshFailed. eapply grows_quiet; [| apply consume_grows].
        eapply grows_quiet; [| by apply grows_frame].
        eapply grows_quiet; [| apply notifyWaiters_grows]. exact Hq.
  - destruct (0 <=? ms); [| discriminate]. injection Hstep as <-.
    eapply grows_singleFlight; [exact H | by apply grows_frame].
Qed.

Lemma boot_singleFlight (st : Storage) (t : Z) : singleFlight (boot st t).
Proof.
  destruct (boot_idle st t) as (Hp & _).
  apply quiet_singleFlight. split; rewrite Hp.
  - intros i [p Hi]. rewrite lookup_empty in Hi. discriminate.
  - intros i p Hi. rewrite lookup_empty in Hi. discriminate.
Qed.

(** In every reachable state at most one refresh call awaits its answer,
    and one does only while [isRefreshing] is set. *)
Lemma reachable_singleFlight (s : System) : reachable s → singleFlight s.
Proof.
  induction 1 as [st t | s e s' _ IH Hstep]; [apply boot_singleFlight |].
  eapply step_singleFlight; eassumption.
Qed.

(** C9, as the code has it. In every reachable state, [isAuthenticated]
    is true only if a user profile is in memory and an access token is
    stored.  The expiry of that token plays no part. *)
Theorem isAuthenticated_needs_profile_and_token (s : System) :
  reachable s →
  isAuthenticated s.(auth) = true →
  is_Some s.(auth).(_currentUser) ∧ is_Some (getAccessToken s.(auth)).
Proof.
  intros Hreach Hauth. unfold isAuthenticated in Hauth.
  apply andb_true_iff in Hauth as [Hin Huser].
  split.
  - destruct (_currentUser (auth s)); [eauto | discriminate].
  - by apply (reachable_kept s Hreach).
Qed.

Lemma isAuthenticated_needs_profile_and_token_witness :
  reachable restored
  ∧ isAuthenticated restored.(auth) = true
  ∧ is_Some restored.(auth).(_currentUser) ∧ is_Some (getAccessToken restored.(auth)).
Proof.
  assert (Hr : reachable restored) by constructor.
  assert (Ha : isAuthenticated restored.(auth) = true) by (vm_compute; reflexivity).
  split; [exact Hr |]. split; [exact Ha |].
  exact (isAuthenticated_needs_profile_and_token restored Hr Ha).
Defined.

End Invariants.

(** ** AuthService.refreshToken *)

Section RefreshFacts.
Import Js Routes Http Auth.

(** C4. Called while no refresh token is stored, [refreshToken] sends
    nothing (the requests sent and those awaited are as before), hands its
    consumer the error "No refresh token available" at once, and leaves the
    four stored entries removed, no current user and the logged-in flag
    false; a direct subscriber receives that error and the error signal is
    [null]. *)
Theorem refreshToken_without_token (s : System) (c : Consumer) :
  getRefreshToken s.(auth) = None →
  let s' := refreshToken c s in
  s'.(sent) = s.(sent)
  ∧ s'.(pending) = s.(pending)
  ∧ s'.(auth).(storage) = emptyStorage
  ∧ s'.(auth).(_currentUser) = None
  ∧ s'.(auth).(_isLoggedIn) = false
  ∧ isAuthenticated s'.(auth) = false
  ∧ (∀ caller, c = RefreshSubscriber caller →
       s'.(delivered)
       = s.(delivered) ++ [(caller, Fail (JsError "No refresh token available"))]
       ∧ s'.(auth).(_error) = None).
Proof.
  intros Hnone. unfold refreshToken. rewrite Hnone.
  destruct c as [req pipe | | caller].
  - destruct pipe as [? | | ? | ? | [[?|] | ? ? |]]; cbn;
      repeat split; try reflexivity; discriminate.
  - cbn. repeat split; try reflexivity; discriminate.
  - cbn. repeat split; try reflexivity; congruence.
Qed.

Lemma refreshToken_without_token_witness :
  let s := boot withoutRefreshToken earlyStart in
  getRefreshToken s.(auth) = None
  ∧ getAccessToken s.(auth) = Some "A0"
  ∧ s.(auth).(storage).(USER_PROFILE) = Some (Parsed alice)
  ∧ s.(auth).(_currentUser) = Some alice
  ∧ isAuthenticated s.(auth) = true
  ∧ (refreshToken (RefreshSubscriber 1) s).(sent) = s.(sent)
  ∧ (refreshToken (RefreshSubscriber 1) s).(pending) = s.(pending)
  ∧ (refreshToken (RefreshSubscriber 1) s).(auth).(storage) = emptyStorage
  ∧ (refreshToken (RefreshSubscriber 1) s).(auth).(_currentUser) = None
  ∧ (refreshToken (RefreshSubscriber 1) s).(auth).(_isLoggedIn) = false
  ∧ isAuthenticated (refreshToken (RefreshSubscriber 1) s).(auth) = false
  ∧ (refreshToken (RefreshSubscriber 1) s).(delivered)
    = [(1%nat, Fail (JsError "No refresh token available"))].
Proof.
  intros s.
  assert (H : getRefreshToken s.(auth) = None) by reflexivity.
  pose proof (refreshToken_without_token s (RefreshSubscriber 1) H)
    as (Hs & Hp & Hst & Hu & Hl & Ha & Hd).
  split; [exact H |].
  split; [reflexivity |]. split; [reflexivity |]. split; [reflexivity |].
  split; [reflexivity |].
  split; [exact Hs |]. split; [exact Hp |]. split; [exact Hst |]. split; [exact Hu |].
  split; [exact Hl |]. split; [exact Ha |]. exact (proj1 (Hd 1%nat eq_refl)).
Defined.

(** C3, as the code has it. When the running refresh is answered by a
    response with a non-empty access token, the success path leaves in
    storage the access token of the response and, as refresh token, the
    [refresh_token] field of the response turned into a string: the token
    the response carries, and the text "undefined" when it carries none.  The
    token stored before is overwritten in either case. *)
Theorem refresh_success_stores_response_token (s : System) (id : nat) (c : Consumer)
    (response : TokenResponse) :
  s.(pending) !! id = Some (RefreshPost c) →
  nonEmpty response.(access_token) = true →
  ∃ s', step s (Respond id (Ok (TokenBody response))) = Some s'
        ∧ getAccessToken s'.(auth) = Some response.(access_token)
        ∧ getRefreshToken s'.(auth) = Some (toDOMString response.(refresh_token)).
Proof.
  intros Hp Hne. cbn. rewrite Hp. cbn. eexists. split; [reflexivity |].
  unfold refreshSucceeded. rewrite consume_next_auth, notifyWaiters_token_auth by exact Hne.
  split; reflexivity.
Qed.

Lemma refresh_success_stores_response_token_witness :
  refreshing.(pending) !! 0%nat = Some (RefreshPost (RefreshSubscriber 1))
  ∧ nonEmpty rotated.(access_token) = true
  ∧ (∃ s', step refreshing (Respond 0 (Ok (TokenBody rotated))) = Some s'
           ∧ getAccessToken s'.(auth) = Some "A1"
           ∧ getRefreshToken s'.(auth) = Some "R1").
Proof.
  assert (Hp : refreshing.(pending) !! 0%nat = Some (RefreshPost (RefreshSubscriber 1)))
    by (vm_compute; reflexivity).
  assert (Hne : nonEmpty rotated.(access_token) = true) by reflexivity.
  split; [exact Hp |]. split; [exact Hne |].
  exact (refresh_success_stores_response_token refreshing 0 (RefreshSubscriber 1)
           rotated Hp Hne).
Defined.

(** C3, as the specification has it, fails: the session holds the refresh
    token "R0", a refresh is answered with a new access token and no refresh
    token, and afterwards the stored refresh token is the text "undefined". *)
Lemma refresh_without_rotation_loses_token :
  getRefreshToken (boot storedSession earlyStart).(auth) = Some "R0"
  ∧ (λ s, getRefreshToken s.(auth)) <$>
      run (boot storedSession earlyStart) [RefreshToken 1; Respond 0 (Ok (TokenBody unrotated))]
    = Some (Some "undefined").
Proof. split; vm_compute; reflexivity. Qed.

End RefreshFacts.

(** ** Restoring the session at startup *)

Section RestoreFacts.
Import Js Routes Http Auth.

(** C7. The application starts over a stored session (access token,
    refresh token, profile, expiry) whose expiry is not in the future.  The
    constructor puts the stored profile into memory and calls
    [refreshToken()], but the refresh call it subscribes fails in the
    interceptor before it is sent.  No refresh call goes out and none is
    awaited, so none can succeed; the [catchError] of [refreshToken] and the
    error handler of the subscription clear the session at once.  The
    application starts unauthenticated, with the four entries removed, the
    failure sentinel on the subject and the router sent to /auth. *)
Theorem restore_expired_session_sends_no_refresh (st : Storage) (t expiresAt : Z)
    (token rt expiry : string) (user : User) :
  st.(ACCESS_TOKEN) = Some token → nonEmpty token = true →
  st.(REFRESH_TOKEN) = Some rt → nonEmpty rt = true →
  st.(USER_PROFILE) = Some (Parsed user) →
  st.(TOKEN_EXPIRY) = Some expiry → parseInt expiry = Some expiresAt →
  expiresAt <= t →
  let s0 := boot st t in
  s0.(sent) = []
  ∧ refreshCalls s0.(sent) = 0%nat
  ∧ s0.(pending) = ∅
  ∧ (∀ id r, step s0 (Respond id r) = None)
  ∧ s0.(auth).(storage) = emptyStorage
  ∧ s0.(auth).(_currentUser) = None
  ∧ s0.(auth).(_isLoggedIn) = false
  ∧ isAuthenticated s0.(auth) = false
  ∧ s0.(auth).(isRefreshing) = false
  ∧ s0.(auth).(refreshTokenSubject) = Some EmptyString
  ∧ s0.(navigations) = ["/auth"].
Proof.
  intros Ha Hane Hr Hrne Hu He Hparse Hpast.
  assert (Hexp : nonEmpty expiry = true).
  { destruct expiry; [discriminate Hparse | reflexivity]. }
  assert (Hboot : boot st t
                  = {| auth := clearAuthState
                                 (setRefreshing false (Some EmptyString)
                                    (setIsLoggedIn true
                                       (setCurrentUser (Some user) (newAuthService st))));
                       now := t; pending := ∅; nextId := 0%nat; sent := []; waiters := [];
                       delivered := []; navigations := ["/auth"] |}).
  { unfold boot, initializeAuthState. cbn. rewrite He, Hu. unfold getAccessToken. cbn.
    rewrite Ha. cbn. rewrite Hane, Hexp, Hparse. cbn.
    replace (t <? expiresAt) with false by (symmetry; apply Z.ltb_ge; lia).
    unfold refreshTokenInConstructor, getRefreshToken. cbn. rewrite Hr, Hrne.
    reflexivity. }
  cbv zeta. rewrite Hboot. cbn.
  split; [reflexivity |]. split; [reflexivity |]. split; [reflexivity |].
  split; [intros id r; rewrite lookup_empty; reflexivity |].
  repeat split.
Qed.

Lemma restore_expired_session_sends_no_refresh_witness :
  storedSession.(ACCESS_TOKEN) = Some "A0" ∧ nonEmpty "A0" = true
  ∧ storedSession.(REFRESH_TOKEN) = Some "R0" ∧ nonEmpty "R0" = true
  ∧ storedSession.(USER_PROFILE) = Some (Parsed alice)
  ∧ storedSession.(TOKEN_EXPIRY) = Some "1700000300000"
  ∧ parseInt "1700000300000" = Some 1700000300000
  ∧ 1700000300000 <= lateStart
  ∧ refreshCalls (boot storedSession lateStart).(sent) = 0%nat
  ∧ isAuthenticated (boot storedSession lateStart).(auth) = false
  ∧ (boot storedSession lateStart).(auth).(storage) = emptyStorage.
Proof.
  assert (Hparse : parseInt "1700000300000" = Some 1700000300000)
    by (vm_compute; reflexivity).
  assert (Hpast : 1700000300000 <= lateStart) by (unfold lateStart; lia).
  pose proof (restore_expired_session_sends_no_refresh storedSession lateStart
                1700000300000 "A0" "R0" "1700000300000" alice
                eq_refl eq_refl eq_refl eq_refl eq_refl eq_refl Hparse Hpast)
    as (_ & Hcalls & _ & _ & Hst & _ & _ & Hauth & _).
  repeat (split; [first [reflexivity | assumption] |]). exact Hst.
Defined.

(** C9, as the specification has it, fails.  The session is restored five
    minutes before its stored expiry and is authenticated.  Sixty-five
    minutes pass and nothing else happens: the state is reachable and still
    authenticated, while the stored expiry lies an hour back and
    [isTokenExpired] holds. *)
Lemma authenticated_with_expired_token :
  step restored (Tick 3900000) = Some (advance 3900000 restored)
  ∧ reachable (advance 3900000 restored)
  ∧ (advance 3900000 restored).(now) = lateStart
  ∧ (advance 3900000 restored).(auth).(storage).(TOKEN_EXPIRY) = Some "1700000300000"
  ∧ isAuthenticated (advance 3900000 restored).(auth) = true
  ∧ isTokenExpired (advance 3900000 restored).(now) (advance 3900000 restored).(auth)
    = true.
Proof.
  split; [reflexivity |]. split.
  { apply (reachable_step restored (Tick 3900000)); [constructor | reflexivity]. }
  repeat split; vm_compute; reflexivity.
Qed.

End RestoreFacts.

(** ** The interceptor on the way back *)

Section RetryFacts.
Import Js Routes Http Auth.

(** C2, as the specification has it, fails: the request for /api/ratings
    is answered 401 while the session is logged in, the refresh call that
    follows is answered 400, and the subscriber of the request receives the
    error of the refresh call, not the 401 of its own request. *)
Lemma failed_refresh_propagates_refresh_error :
  isAuthEndpoint ratingsRequest.(url) = false
  ∧ calling.(auth).(_isLoggedIn) = true
  ∧ (λ s, (s.(delivered), s.(auth).(storage))) <$>
     run restored [Call 1 ratingsRequest; Respond 0 (Failed 401 NoErrorPayload);
                   Respond 1 (Failed 400 NoErrorPayload)]
  = Some ([(1%nat, Fail (HttpErrorResponse 400 (apiUrl +:+ "/refresh") NoErrorPayload))],
          emptyStorage)
  ∧ HttpErrorResponse 400 (apiUrl +:+ "/refresh") NoErrorPayload
    ≠ HttpErrorResponse 401 ratingsRequest.(url) NoErrorPayload.
Proof. repeat split; try (vm_compute; reflexivity). discriminate. Qed.

(** C1, as the specification has it, fails: subscriber 1 starts a refresh,
    subscriber 2 arrives while it runs, and the response carries the empty
    string as access token.  One call has gone out; subscriber 1 receives
    the response, subscriber 2 the error "Token refresh failed". *)
Lemma waiter_fails_while_refresh_succeeds :
  (λ s, (refreshCalls s.(sent), s.(delivered))) <$>
     run restored [RefreshToken 1; RefreshToken 2; Respond 0 (Ok (TokenBody emptyAccess))]
  = Some (1%nat, [(2%nat, Fail (JsError "Token refresh failed"));
                  (1%nat, Next (TokenBody emptyAccess))]).
Proof. vm_compute. reflexivity. Qed.

(** C2, as the code has it. A request that is not a login, registration
    or refresh call is answered 401 in a reachable state in which the
    logged-in flag is set, a non-empty refresh token is stored and no refresh
    runs.  The interceptor sends one refresh
    call and hands nothing to the subscriber yet.
    - When the refresh call succeeds (with a non-empty access token), the
      request is sent once more, with the new token as bearer; whatever
      answers that second attempt is handed to the subscriber, and the only
      thing that may still go out is the logout call made when the second
      attempt fails too.
    - When the refresh call fails, nothing more is sent, the session is
      cleared, and the subscriber receives the error of the refresh call. *)
Theorem unauthorized_request_refreshed_and_retried (s : System) (id caller : nat)
    (req : HttpRequest) (rt : string) (e401 : ErrorPayload) :
  reachable s →
  s.(pending) !! id = Some (First req (Subscriber caller)) →
  isAuthEndpoint req.(url) = false →
  s.(auth).(_isLoggedIn) = true →
  getRefreshToken s.(auth) = Some rt → nonEmpty rt = true →
  s.(auth).(isRefreshing) = false →
  ∃ s1,
    step s (Respond id (Failed 401 e401)) = Some s1
    ∧ s1.(sent) = s.(sent) ++ [refreshRequest rt]
    ∧ s1.(delivered) = s.(delivered)
    ∧ (∀ response, nonEmpty response.(access_token) = true →
       ∃ s2,
         step s1 (Respond s.(nextId) (Ok (TokenBody response))) = Some s2
         ∧ s2.(sent)
           = s1.(sent)
             ++ [setHeader "Authorization" ("Bearer " +:+ response.(access_token)) req]
         ∧ s2.(delivered) = s.(delivered)
         ∧ ∀ r, ∃ s3,
             step s2 (Respond (S s.(nextId)) r) = Some s3
             ∧ s3.(delivered) = s.(delivered) ++ [(caller, outcomeOf req.(url) r)]
             ∧ s3.(pending) !! S s.(nextId) = None
             ∧ (s3.(sent) = s2.(sent)
                ∨ ∃ q, s3.(sent) = s2.(sent) ++ [q]
                       ∧ q.(url) = apiUrl +:+ "/logout"))
    ∧ (∀ status e,
       ∃ s2,
         step s1 (Respond s.(nextId) (Failed status e)) = Some s2
         ∧ s2.(sent) = s1.(sent)
         ∧ s2.(delivered)
           = s.(delivered)
             ++ [(caller, Fail (HttpErrorResponse status (apiUrl +:+ "/refresh") e))]
         ∧ s2.(auth).(storage) = emptyStorage
         ∧ isAuthenticated s2.(auth) = false).
Proof.
  intros Hreach Hp Hauth Hin Hrt Hne Hidle.
  pose proof (proj1 (reachable_coordinated s Hreach) Hidle) as Hw.
  cbn. rewrite Hp. cbn.
  unfold authInterceptor_refreshes. cbn. rewrite Hauth, Hin. cbn.
  unfold refreshToken. cbn. rewrite Hrt, Hne, Hidle.
  rewrite (proj1 (refreshRequest_not_intercepted _ _ (JsError "none"))).
  eexists. split; [reflexivity |]. cbn.
  split; [reflexivity |]. split; [reflexivity |]. split.
  - intros response Hresp. rewrite lookup_insert_eq. cbn.
    eexists. split; [reflexivity |].
    unfold refreshSucceeded, notifyWaiters. cbn. rewrite Hw. cbn.
    split; [reflexivity |]. split; [reflexivity |].
    intros r. rewrite lookup_insert_eq.
    destruct r as [b | status e].
    + assert (Hty : wellTyped (Retry req (Subscriber caller)) (Ok b) = true)
        by (destruct b; reflexivity).
      rewrite Hty. cbn. eexists. split; [reflexivity |]. cbn.
      split; [reflexivity |]. split; [apply lookup_delete_eq |]. left. reflexivity.
    + cbn. eexists. split; [reflexivity |].
      unfold logout. cbn.
      destruct (nonEmpty (toDOMString (refresh_token response))); cbn.
      * split; [reflexivity |]. split.
        { rewrite lookup_insert_ne by lia. apply lookup_delete_eq. }
        right. eexists. split; [reflexivity |]. apply authInterceptor_request_url.
      * split; [reflexivity |]. split; [apply lookup_delete_eq |]. left. reflexivity.
  - intros status e. rewrite lookup_insert_eq. cbn.
    eexists. split; [reflexivity |].
    unfold refreshFailed, notifyWaiters. cbn. rewrite Hw. cbn.
    repeat split.
Qed.

Lemma unauthorized_request_refreshed_and_retried_witness :
  reachable calling
  ∧ calling.(pending) !! 0%nat = Some (First ratingsRequest (Subscriber 1))
  ∧ isAuthEndpoint ratingsRequest.(url) = false
  ∧ calling.(auth).(_isLoggedIn) = true
  ∧ getRefreshToken calling.(auth) = Some "R0" ∧ nonEmpty "R0" = true
  ∧ calling.(auth).(isRefreshing) = false
  ∧ (∃ s1, step calling (Respond 0 (Failed 401 NoErrorPayload)) = Some s1
           ∧ s1.(sent) = calling.(sent) ++ [refreshRequest "R0"]).
Proof.
  assert (Hreach : reachable calling).
  { apply (reachable_step restored (Call 1 ratingsRequest)); [constructor | reflexivity]. }
  assert (Hp : calling.(pending) !! 0%nat = Some (First ratingsRequest (Subscriber 1)))
    by (vm_compute; reflexivity).
  assert (Ha : isAuthEndpoint ratingsRequest.(url) = false) by (vm_compute; reflexivity).
  assert (Hr : getRefreshToken calling.(auth) = Some "R0") by reflexivity.
  destruct (unauthorized_request_refreshed_and_retried calling 0 1 ratingsRequest "R0"
              NoErrorPayload Hreach Hp Ha eq_refl Hr eq_refl eq_refl)
    as (s1 & Hstep & Hsent & _).
  repeat (split; [first [reflexivity | assumption] |]).
  exists s1. split; assumption.
Defined.

End RetryFacts.

(** ** Public addresses and the bearer header *)

Section PublicFacts.
Import Js Routes Http Auth.

(** C8, as the code has it. A request of an outside caller whose address
    is classified public leaves the interceptor as it came, whether or not
    an access token is stored: no bearer header is put on it, and it carries
    an Authorization header only if its maker put one.  The bearer header
    does reach such a request on the interceptor's second attempt: answered
    401 in a reachable state in which the logged-in flag is set, a non-empty
    refresh token is stored and no refresh runs, and not being a login,
    registration or refresh call, the request is sent once more after the
    refresh has succeeded, with the new access token as bearer, public or
    not. *)
Theorem public_request_unchanged (s : System) (caller : nat) (req : HttpRequest) :
  plainUrl req.(url) = true →
  isPublic req.(url) = true →
  let s1 := httpCall req (Subscriber caller) s in
  authInterceptor_request s.(auth) req = req
  ∧ (authInterceptor_request s.(auth) req).(headers) !! "Authorization"
    = req.(headers) !! "Authorization"
  ∧ s1.(sent) = s.(sent) ++ [req]
  ∧ (∀ rt e401 response,
       reachable s →
       s.(auth).(_isLoggedIn) = true →
       isAuthEndpoint req.(url) = false →
       getRefreshToken s.(auth) = Some rt → nonEmpty rt = true →
       s.(auth).(isRefreshing) = false →
       ∃ s3 retry,
         run s1 [Respond s.(nextId) (Failed 401 e401);
                 Respond (S s.(nextId)) (Ok (TokenBody response))] = Some s3
         ∧ s3.(sent) = s.(sent) ++ [req; refreshRequest rt; retry]
         ∧ retry.(url) = req.(url)
         ∧ retry.(headers) !! "Authorization"
           = Some ("Bearer " +:+ response.(access_token))).
Proof.
  intros _ Hp. cbv zeta.
  pose proof (authInterceptor_request_public s.(auth) req Hp) as Hsame.
  split; [exact Hsame |]. split; [by rewrite Hsame |].
  unfold httpCall. rewrite Hsame. split; [reflexivity |].
  intros rt e401 response Hreach Hin Hauth Hrt Hne Hidle.
  pose proof (proj1 (reachable_coordinated s Hreach) Hidle) as Hw.
  cbn [run step transmit pending]. rewrite lookup_insert_eq. cbn [wellTyped].
  cbn [respond outcomeOf].
  unfold authInterceptor_refreshes. cbn. rewrite Hauth, Hin. cbn.
  unfold refreshToken. cbn. rewrite Hrt, Hne, Hidle.
  rewrite (proj1 (refreshRequest_not_intercepted _ _ (JsError "none"))).
  cbn. rewrite lookup_insert_eq. cbn.
  unfold refreshSucceeded, notifyWaiters. cbn. rewrite Hw. cbn.
  eexists. eexists. split; [reflexivity |]. cbn.
  split; [rewrite <- !app_assoc; reflexivity |].
  split; [reflexivity |]. apply lookup_insert_eq.
Qed.

Lemma public_request_unchanged_witness :
  plainUrl trendingRequest.(url) = true
  ∧ isPublic trendingRequest.(url) = true
  ∧ authInterceptor_request restored.(auth) trendingRequest = trendingRequest
  ∧ (httpCall trendingRequest (Subscriber 1) restored).(sent) = [trendingRequest]
  ∧ (∃ s3 retry,
       run (httpCall trendingRequest (Subscriber 1) restored)
         [Respond 0 (Failed 401 NoErrorPayload); Respond 1 (Ok (TokenBody rotated))]
       = Some s3
       ∧ s3.(sent) = [trendingRequest; refreshRequest "R0"; retry]
       ∧ retry.(url) = trendingRequest.(url)
       ∧ retry.(headers) !! "Authorization" = Some "Bearer A1").
Proof.
  assert (Hplain : plainUrl trendingRequest.(url) = true) by (vm_compute; reflexivity).
  assert (H : isPublic trendingRequest.(url) = true) by (vm_compute; reflexivity).
  assert (Ha : isAuthEndpoint trendingRequest.(url) = false) by (vm_compute; reflexivity).
  destruct (public_request_unchanged restored 1 trendingRequest Hplain H)
    as (Hsame & _ & Hsent & Hretry).
  destruct (Hretry "R0" NoErrorPayload rotated (reachable_boot _ _) eq_refl Ha eq_refl
              eq_refl eq_refl) as (s3 & retry & Hrun & Hs3 & Hurl & Hhead).
  split; [exact Hplain |]. split; [exact H |]. split; [exact Hsame |].
  split; [exact Hsent |]. exists s3, retry. repeat split; assumption.
Defined.

End PublicFacts.

(** ** Single flight *)

Section SingleFlight.
Import Js Routes Http Auth.

Lemma setWaiters_same (s : System) : setWaiters s.(waiters) s = s.
Proof. destruct s; reflexivity. Qed.

(** While a refresh runs, every further caller is queued and nothing else
    changes. *)
Lemma refreshToken_while_refreshing (s : System) (c : Consumer) (rt : string) :
  getRefreshToken s.(auth) = Some rt → nonEmpty rt = true →
  s.(auth).(isRefreshing) = true → s.(auth).(refreshTokenSubject) = None →
  refreshToken c s = setWaiters (s.(waiters) ++ [c]) s.
Proof. intros Hrt Hne Hr Hs. unfold refreshToken. rewrite Hrt, Hne, Hr, Hs. reflexivity. Qed.

Lemma run_waiting_callers (ws : list nat) (s : System) (rt : string) :
  getRefreshToken s.(auth) = Some rt → nonEmpty rt = true →
  s.(auth).(isRefreshing) = true → s.(auth).(refreshTokenSubject) = None →
  run s (map RefreshToken ws)
  = Some (setWaiters (s.(waiters) ++ map RefreshSubscriber ws) s).
Proof.
  revert s. induction ws as [| w ws IH]; intros s Hrt Hne Hr Hs.
  - cbn. rewrite app_nil_r, setWaiters_same. reflexivity.
  - cbn [map run step].
    rewrite (refreshToken_while_refreshing s _ rt Hrt Hne Hr Hs).
    rewrite (IH (setWaiters (s.(waiters) ++ [RefreshSubscriber w]) s) Hrt Hne Hr Hs).
    cbn. rewrite <- app_assoc. reflexivity.
Qed.

(** Direct subscribers that wait all receive the one outcome the token
    stands for. *)
Lemma fold_subscribers (token : string) (ws : list nat) (s : System) :
  fold_left (λ s' c, waiterReceives token c s') (map RefreshSubscriber ws) s
  = emitAll (map (λ w, (w, waiterOutcome token)) ws) s.
Proof.
  revert s. induction ws as [| w ws IH]; intros s.
  - cbn. unfold emitAll. rewrite app_nil_r. destruct s; reflexivity.
  - cbn. rewrite IH. unfold emitAll. cbn. rewrite <- app_assoc. reflexivity.
Qed.

(** C1, as the code has it. In a reachable state in which a non-empty
    refresh token is stored and no refresh runs, any number of callers
    subscribe to [refreshToken()] one after the other: the first sends the refresh call, the others
    send nothing and wait.
    - A response with a non-empty access token reaches them all: no further
      request goes out, each waiting caller receives that access token, and
      the first caller the response.
    - A failure reaches them all: nothing is sent, each waiting caller
      receives the error "Token refresh failed", and the first caller the
      error of the call. *)
Theorem concurrent_refresh_single_flight (s : System) (leader : nat) (ws : list nat)
    (rt : string) :
  reachable s →
  getRefreshToken s.(auth) = Some rt → nonEmpty rt = true →
  s.(auth).(isRefreshing) = false →
  ∃ s1,
    run s (map RefreshToken (leader :: ws)) = Some s1
    ∧ s1.(sent) = s.(sent) ++ [refreshRequest rt]
    ∧ s1.(delivered) = s.(delivered)
    ∧ (∀ response, nonEmpty response.(access_token) = true →
       ∃ s2,
         step s1 (Respond s.(nextId) (Ok (TokenBody response))) = Some s2
         ∧ s2.(sent) = s1.(sent)
         ∧ s2.(delivered)
           = s.(delivered)
             ++ map (λ w, (w, Next (TokenBody
                                      (partialTokenResponse response.(access_token))))) ws
             ++ [(leader, Next (TokenBody response))])
    ∧ (∀ status e,
       ∃ s2,
         step s1 (Respond s.(nextId) (Failed status e)) = Some s2
         ∧ s2.(sent) = s1.(sent)
         ∧ s2.(delivered)
           = s.(delivered)
             ++ map (λ w, (w, Fail (JsError "Token refresh failed"))) ws
             ++ [(leader, Fail (HttpErrorResponse status (apiUrl +:+ "/refresh") e))]).
Proof.
  intros Hreach Hrt Hne Hidle.
  pose proof (proj1 (reachable_coordinated s Hreach) Hidle) as Hw.
  cbn [map run step]. unfold refreshToken at 1. rewrite Hrt, Hne, Hidle.
  rewrite (proj1 (refreshRequest_not_intercepted _ _ (JsError "none"))).
  erewrite run_waiting_callers; [| exact Hrt | exact Hne | reflexivity | reflexivity].
  eexists. split; [reflexivity |]. cbn. rewrite Hw. cbn.
  split; [reflexivity |]. split; [reflexivity |]. split.
  - intros response Hresp. rewrite lookup_insert_eq. cbn.
    eexists. split; [reflexivity |].
    unfold refreshSucceeded, notifyWaiters. cbn. rewrite fold_subscribers. cbn.
    split; [reflexivity |].
    unfold waiterOutcome. rewrite Hresp. rewrite <- app_assoc. reflexivity.
  - intros status e. rewrite lookup_insert_eq. cbn.
    eexists. split; [reflexivity |].
    unfold refreshFailed, notifyWaiters. cbn. rewrite fold_subscribers. cbn.
    split; [reflexivity |]. rewrite <- app_assoc. reflexivity.
Qed.

Lemma concurrent_refresh_single_flight_witness :
  reachable restored
  ∧ getRefreshToken restored.(auth) = Some "R0" ∧ nonEmpty "R0" = true
  ∧ restored.(auth).(isRefreshing) = false
  ∧ (∃ s1, run restored [RefreshToken 1; RefreshToken 2; RefreshToken 3] = Some s1
           ∧ s1.(sent) = restored.(sent) ++ [refreshRequest "R0"]).
Proof.
  assert (Hreach : reachable restored) by constructor.
  destruct (concurrent_refresh_single_flight restored 1 [2; 3]%nat "R0"
              Hreach eq_refl eq_refl eq_refl)
    as (s1 & Hrun & Hsent & _).
  split; [exact Hreach |]. repeat (split; [reflexivity |]).
  exists s1. split; assumption.
Defined.

End SingleFlight.

(** * Further properties of the services *)

(** ** Numbers as text *)

Section NumberFacts.
Import Js Http Auth.

Lemma digitsValue_acc (d : Decimal.uint) (acc : positive) :
  digitsValue (Z.pos acc) (NilEmpty.string_of_uint d) = Z.pos (Pos.of_uint_acc d acc).
Proof.
  revert acc.
  induction d; intros acc; cbn [NilEmpty.string_of_uint digitsValue Pos.of_uint_acc];
    [reflexivity | ..];
    (replace (isDigit _) with true by reflexivity); rewrite <- IHd; f_equal;
    match goal with
    | |- context [Z.of_nat ?n] => let v := eval vm_compute in (Z.of_nat n) in
                                  change (Z.of_nat n) with v
    end; lia.
Qed.

Lemma digitsValue_uint (d : Decimal.uint) :
  digitsValue 0 (NilEmpty.string_of_uint d) = Z.of_N (Pos.of_uint d).
Proof.
  induction d; cbn [NilEmpty.string_of_uint digitsValue Pos.of_uint];
    [reflexivity | ..];
    (replace (isDigit _) with true by reflexivity);
    match goal with
    | |- context [Z.of_nat ?n] => let v := eval vm_compute in (Z.of_nat n) in
                                  change (Z.of_nat n) with v
    end;
    first [exact IHd | apply (digitsValue_acc d)].
Qed.

Lemma parseInt_digits (s : string) :
  startsWithDigit s = true → parseInt s = Some (digitsValue 0 s).
Proof.
  destruct s as [| c s]; [discriminate |].
  destruct c as [[] [] [] [] [] [] [] []]; try discriminate; intros _; reflexivity.
Qed.

Lemma parseInt_minus_digits (s : string) :
  startsWithDigit s = true → parseInt (String "-" s) = Some (- digitsValue 0 s).
Proof.
  intros H. unfold parseInt. cbn [skipSpaces]. replace (isSpace "-") with false by reflexivity.
  cbn. rewrite H. reflexivity.
Qed.

Lemma string_of_uint_digit (p : positive) :
  startsWithDigit (NilEmpty.string_of_uint (Pos.to_uint p)) = true
  ∧ NilZero.string_of_uint (Pos.to_uint p) = NilEmpty.string_of_uint (Pos.to_uint p).
Proof.
  pose proof (DecimalPos.Unsigned.to_uint_nonnil p) as Hnil.
  destruct (Pos.to_uint p); [congruence | ..]; split; reflexivity.
Qed.

Lemma parseInt_toString (z : Z) : parseInt (Js.toString z) = Some z.
Proof.
  unfold Js.toString. destruct z as [| p | p]; [reflexivity | ..]; cbn [Z.to_int].
  - cbn [NilZero.string_of_int].
    destruct (string_of_uint_digit p) as [Hd ->].
    rewrite (parseInt_digits _ Hd), digitsValue_uint, DecimalPos.Unsigned.of_to.
    reflexivity.
  - cbn [NilZero.string_of_int].
    destruct (string_of_uint_digit p) as [Hd ->].
    rewrite (parseInt_minus_digits _ Hd), digitsValue_uint, DecimalPos.Unsigned.of_to.
    reflexivity.
Qed.

Lemma toString_nonEmpty (z : Z) : nonEmpty (Js.toString z) = true.
Proof.
  pose proof (parseInt_toString z) as H.
  destruct (Js.toString z); [discriminate H | reflexivity].
Qed.

(** X1. The expiry that [storeTokens] writes at time [t0] is read back by
    [isTokenExpired]: with clock and lifetime in the range where JavaScript
    numbers are exact integers, the token counts as expired from 30 seconds
    before the end of its [expires_in] seconds on, and not before.  A
    response without [expires_in] stores the text "NaN", and its token never
    counts as expired. *)
Theorem isTokenExpired_after_storeTokens (t0 t : Z) (response : TokenResponse)
    (a : AuthService) :
  match response.(expires_in) with
  | Some e => Z.abs t0 < 2 ^ 52 ∧ Z.abs ((e - 30) * 1000) < 2 ^ 52
  | None => True
  end →
  isTokenExpired t (storeTokens t0 response a)
  = match response.(expires_in) with
    | Some e => t0 + (e - 30) * 1000 <=? t
    | None => false
    end.
Proof.
  intros _. unfold isTokenExpired, storeTokens, expiryTime. cbn.
  destruct (expires_in response) as [e |]; cbn.
  - rewrite toString_nonEmpty, parseInt_toString. reflexivity.
  - reflexivity.
Qed.

Lemma isTokenExpired_after_storeTokens_witness :
  (Z.abs earlyStart < 2 ^ 52 ∧ Z.abs ((300 - 30) * 1000) < 2 ^ 52)
  ∧ isTokenExpired (earlyStart + 269999) (storeTokens earlyStart rotated signedIn) = false
  ∧ isTokenExpired (earlyStart + 270000) (storeTokens earlyStart rotated signedIn) = true.
Proof.
  assert (H : Z.abs earlyStart < 2 ^ 52 ∧ Z.abs ((300 - 30) * 1000) < 2 ^ 52)
    by (split; reflexivity).
  split; [exact H |]. split.
  - rewrite (isTokenExpired_after_storeTokens earlyStart (earlyStart + 269999)
               rotated signedIn H). reflexivity.
  - rewrite (isTokenExpired_after_storeTokens earlyStart (earlyStart + 270000)
               rotated signedIn H). reflexivity.
Defined.

End NumberFacts.

(** ** Logging in and out *)

Section SessionFlows.
Import Js Routes Http Auth.

Lemma loginRequest_passes (a : AuthService) (request : LoginRequest) (error : Error) :
  authInterceptor_request a (loginRequest request) = loginRequest request
  ∧ authInterceptor_refreshes a (loginRequest request) error = false.
Proof.
  split.
  - apply authInterceptor_request_public. vm_compute. reflexivity.
  - unfold authInterceptor_refreshes.
    replace (isAuthEndpoint (loginRequest request).(url)) with true
      by (vm_compute; reflexivity).
    cbn. rewrite andb_false_r. reflexivity.
Qed.

Lemma profileRequest_private : isPublic profileRequest.(url) = false.
Proof. vm_compute. reflexivity. Qed.

(** X2. A login that succeeds, followed by the profile it asks for: the
    tokens of the response are stored, the session is authenticated with
    the profile in memory and in storage, the loading flag and the error
    signal are reset, the caller receives the token response, and two
    requests have gone out: the login call, unchanged by the interceptor,
    and the profile call, which carries the new token when it is not empty. *)
Theorem login_succeeds (s : System) (caller : nat) (request : LoginRequest)
    (response : TokenResponse) (p : UserProfile) :
  ∃ s3 profileCall,
    run s [Login caller request;
           Respond s.(nextId) (Ok (TokenBody response));
           Respond (S s.(nextId)) (Ok (ProfileBody p))] = Some s3
    ∧ getAccessToken s3.(auth) = Some response.(access_token)
    ∧ getRefreshToken s3.(auth) = Some (toDOMString response.(refresh_token))
    ∧ isAuthenticated s3.(auth) = true
    ∧ s3.(auth).(_currentUser) = Some (mapToUser p)
    ∧ s3.(auth).(storage).(USER_PROFILE) = Some (Parsed (mapToUser p))
    ∧ s3.(auth).(_isLoading) = false
    ∧ s3.(auth).(_error) = None
    ∧ s3.(delivered) = s.(delivered) ++ [(caller, Next (TokenBody response))]
    ∧ s3.(sent) = s.(sent) ++ [loginRequest request; profileCall]
    ∧ profileCall.(url) = apiUrl +:+ "/me"
    ∧ (nonEmpty response.(access_token) = true →
       profileCall.(headers) !! "Authorization"
       = Some ("Bearer " +:+ response.(access_token))).
Proof.
  cbn [run step]. unfold login, httpCall.
  rewrite (proj1 (loginRequest_passes _ request (JsError "none"))).
  cbn. rewrite lookup_insert_eq. cbn. rewrite lookup_insert_eq. cbn.
  eexists. eexists. split; [reflexivity |]. cbn.
  repeat (split; [reflexivity |]).
  split; [rewrite <- app_assoc; reflexivity |].
  split; [apply authInterceptor_request_url |].
  intros Hne. apply authInterceptor_request_private; [reflexivity | exact Hne |].
  apply profileRequest_private.
Qed.

(** X3. A login that the server refuses, with whatever status: the caller
    receives an [Error] with the message [handleError] settles on, the error
    signal holds that message, the loading flag is reset, and the stored
    entries, the current user, the logged-in flag and the coordinator are as
    before.  Nothing but the login call has gone out: a 401 on it is not
    answered by a refresh, not even while a session exists. *)
Theorem login_fails (s : System) (caller : nat) (request : LoginRequest)
    (status : Z) (e : ErrorPayload) :
  let message :=
    errorMessage (HttpErrorResponse status (apiUrl +:+ "/login") e) "Login failed" in
  ∃ s2,
    run s [Login caller request; Respond s.(nextId) (Failed status e)] = Some s2
    ∧ s2.(auth).(storage) = s.(auth).(storage)
    ∧ s2.(auth).(_currentUser) = s.(auth).(_currentUser)
    ∧ s2.(auth).(_isLoggedIn) = s.(auth).(_isLoggedIn)
    ∧ s2.(auth).(isRefreshing) = s.(auth).(isRefreshing)
    ∧ s2.(waiters) = s.(waiters)
    ∧ s2.(auth).(_error) = Some message
    ∧ s2.(auth).(_isLoading) = false
    ∧ s2.(delivered) = s.(delivered) ++ [(caller, Fail (JsError message))]
    ∧ s2.(sent) = s.(sent) ++ [loginRequest request].
Proof.
  cbn [run step]. unfold login, httpCall.
  rewrite (proj1 (loginRequest_passes _ request (JsError "none"))).
  cbn. rewrite lookup_insert_eq. cbn.
  rewrite (proj2 (loginRequest_passes _ request _)).
  eexists. split; [reflexivity |]. cbn. repeat split.
Qed.

(** X4. A login whose profile request then fails with a status other than
    401 is a login all the same: the caller receives the token response, the
    tokens are stored and the logged-in flag is set; the user in memory is
    whoever was there before, and nothing more is sent. *)
Theorem login_survives_profile_failure (s : System) (caller : nat)
    (request : LoginRequest) (response : TokenResponse) (status : Z)
    (e : ErrorPayload) :
  status ≠ 401 →
  ∃ s3 profileCall,
    run s [Login caller request;
           Respond s.(nextId) (Ok (TokenBody response));
           Respond (S s.(nextId)) (Failed status e)] = Some s3
    ∧ s3.(delivered) = s.(delivered) ++ [(caller, Next (TokenBody response))]
    ∧ getAccessToken s3.(auth) = Some response.(access_token)
    ∧ s3.(auth).(_isLoggedIn) = true
    ∧ s3.(auth).(_currentUser) = s.(auth).(_currentUser)
    ∧ s3.(auth).(_isLoading) = false
    ∧ s3.(sent) = s.(sent) ++ [loginRequest request; profileCall].
Proof.
  intros Hstatus.
  cbn [run step]. unfold login, httpCall.
  rewrite (proj1 (loginRequest_passes _ request (JsError "none"))).
  cbn. rewrite lookup_insert_eq. cbn. rewrite lookup_insert_eq. cbn.
  unfold authInterceptor_refreshes. cbn.
  replace (status =? 401) with false by (symmetry; apply Z.eqb_neq; exact Hstatus).
  cbn. eexists. eexists. split; [reflexivity |]. cbn.
  repeat (split; [reflexivity |]). rewrite <- app_assoc. reflexivity.
Qed.

Lemma login_survives_profile_failure_witness :
  500 ≠ 401
  ∧ (∃ s3 profileCall,
       run restored [Login 1 {| login_username := "alice"; login_password := "Secr3t!";
                                totp := None |};
                     Respond restored.(nextId) (Ok (TokenBody rotated));
                     Respond (S restored.(nextId)) (Failed 500 NoErrorPayload)] = Some s3
       ∧ s3.(delivered) = restored.(delivered) ++ [(1%nat, Next (TokenBody rotated))]
       ∧ getAccessToken s3.(auth) = Some rotated.(access_token)
       ∧ s3.(auth).(_isLoggedIn) = true
       ∧ s3.(auth).(_currentUser) = restored.(auth).(_currentUser)
       ∧ s3.(auth).(_isLoading) = false
       ∧ s3.(sent) = restored.(sent) ++ [loginRequest {| login_username := "alice";
                                                         login_password := "Secr3t!";
                                                         totp := None |}; profileCall]).
Proof.
  assert (H : 500 ≠ 401) by lia.
  split; [exact H |].
  exact (login_survives_profile_failure restored 1 _ rotated 500 NoErrorPayload H).
Defined.

(** X5. Logging out with a refresh token in storage sends one call, to the
    logout endpoint and with that token, and clears the session at once,
    without waiting for the answer; whatever the answer is, 401 included,
    it changes nothing further: no refresh, no second call, nothing handed to
    anybody. *)
Theorem logout_ignores_answer (s : System) (rt : string) (r : Response) :
  getRefreshToken s.(auth) = Some rt → nonEmpty rt = true →
  ∃ s2 call,
    run s [Logout; Respond s.(nextId) r] = Some s2
    ∧ s2.(auth) = clearAuthState s.(auth)
    ∧ s2.(sent) = s.(sent) ++ [call]
    ∧ call.(url) = apiUrl +:+ "/logout"
    ∧ call.(payload) = LogoutPayload rt
    ∧ s2.(delivered) = s.(delivered)
    ∧ s2.(waiters) = s.(waiters)
    ∧ s2.(navigations) = s.(navigations) ++ ["/auth"].
Proof.
  intros Hrt Hne. cbn [run step]. unfold logout. rewrite Hrt, Hne.
  cbn. rewrite lookup_insert_eq.
  destruct r as [b | status e].
  - replace (wellTyped _ (Ok b)) with true by (destruct b; reflexivity).
    cbn. eexists. eexists. split; [reflexivity |]. cbn.
    split; [reflexivity |]. split; [reflexivity |].
    split; [apply authInterceptor_request_url |]. repeat split.
    unfold authInterceptor_request.
    destruct (getAccessToken (auth s)) as [t |]; [| reflexivity].
    destruct (nonEmpty t && negb (isPublic _)); reflexivity.
  - cbn. unfold authInterceptor_refreshes. cbn. rewrite andb_false_r. cbn.
    eexists. eexists. split; [reflexivity |]. cbn.
    split; [reflexivity |]. split; [reflexivity |].
    split; [apply authInterceptor_request_url |]. repeat split.
    unfold authInterceptor_request.
    destruct (getAccessToken (auth s)) as [t |]; [| reflexivity].
    destruct (nonEmpty t && negb (isPublic _)); reflexivity.
Qed.

Lemma logout_ignores_answer_witness :
  getRefreshToken restored.(auth) = Some "R0" ∧ nonEmpty "R0" = true
  ∧ (∃ s2, run restored [Logout; Respond restored.(nextId) (Failed 401 NoErrorPayload)]
           = Some s2
           ∧ s2.(auth) = clearAuthState restored.(auth)).
Proof.
  destruct (logout_ignores_answer restored "R0" (Failed 401 NoErrorPayload)
              eq_refl eq_refl) as (s2 & call & Hrun & Hauth & _).
  split; [reflexivity |]. split; [reflexivity |]. exists s2. split; assumption.
Defined.

(** X6. What the interceptor leaves alone: an answer that is a success, a
    failure with a status other than 401, a failure of a login, registration
    or refresh call, or a failure while the logged-in flag is down, is handed
    to the subscriber as it is; nothing is sent and the session is not
    touched. *)
Theorem other_answers_pass_through (s : System) (id caller : nat) (req : HttpRequest)
    (r : Response) :
  s.(pending) !! id = Some (First req (Subscriber caller)) →
  (∀ status e, r = Failed status e →
     status ≠ 401 ∨ isAuthEndpoint req.(url) = true ∨ s.(auth).(_isLoggedIn) = false) →
  ∃ s', step s (Respond id r) = Some s'
        ∧ s'.(delivered) = s.(delivered) ++ [(caller, outcomeOf req.(url) r)]
        ∧ s'.(sent) = s.(sent)
        ∧ s'.(auth) = s.(auth)
        ∧ s'.(waiters) = s.(waiters)
        ∧ s'.(pending) = delete id s.(pending).
Proof.
  intros Hp Hr. cbn [step]. rewrite Hp.
  destruct r as [b | status e].
  - replace (wellTyped _ (Ok b)) with true by (destruct b; reflexivity).
    cbn. eexists. split; [reflexivity |]. repeat split.
  - cbn.
    assert (Hno : authInterceptor_refreshes s.(auth) req
                    (HttpErrorResponse status req.(url) e) = false).
    { unfold authInterceptor_refreshes. cbn.
      destruct (Hr status e eq_refl) as [Hs | [Ha | Hl]].
      - replace (status =? 401) with false by (symmetry; apply Z.eqb_neq; exact Hs).
        reflexivity.
      - rewrite Ha. cbn. rewrite andb_false_r. reflexivity.
      - rewrite Hl. apply andb_false_r. }
    rewrite Hno. eexists. split; [reflexivity |]. repeat split.
Qed.

Lemma other_answers_pass_through_witness :
  calling.(pending) !! 0%nat = Some (First ratingsRequest (Subscriber 1))
  ∧ (∀ status e, Failed 500 NoErrorPayload = Failed status e →
       status ≠ 401 ∨ isAuthEndpoint ratingsRequest.(url) = true
       ∨ calling.(auth).(_isLoggedIn) = false)
  ∧ (∃ s', step calling (Respond 0 (Failed 500 NoErrorPayload)) = Some s'
           ∧ s'.(sent) = calling.(sent)).
Proof.
  assert (Hp : calling.(pending) !! 0%nat = Some (First ratingsRequest (Subscriber 1)))
    by (vm_compute; reflexivity).
  assert (Hr : ∀ status e, Failed 500 NoErrorPayload = Failed status e →
                 status ≠ 401 ∨ isAuthEndpoint ratingsRequest.(url) = true
                 ∨ calling.(auth).(_isLoggedIn) = false).
  { intros status e [= <- <-]. left. lia. }
  destruct (other_answers_pass_through calling 0 1 ratingsRequest _ Hp Hr)
    as (s' & Hstep & _ & Hsent & _).
  split; [exact Hp |]. split; [exact Hr |]. exists s'. split; assumption.
Defined.

End SessionFlows.

(** ** Starting up *)

Section StartFacts.
Import Js Routes Http Auth.

(** X7. The application starts over a stored session whose expiry is still
    ahead.  The session is authenticated at once with the stored profile and
    storage is untouched.  The profile call that the constructor subscribes
    fails in the interceptor before it is sent, and its error is no 401: no
    request goes out, none is awaited, no refresh is started, nothing is
    cleared and the router is not moved. *)
Theorem restore_valid_session (st : Storage) (t expiresAt : Z)
    (token expiry : string) (user : User) :
  st.(ACCESS_TOKEN) = Some token → nonEmpty token = true →
  st.(USER_PROFILE) = Some (Parsed user) →
  st.(TOKEN_EXPIRY) = Some expiry → parseInt expiry = Some expiresAt →
  t < expiresAt →
  let s0 := boot st t in
  isAuthenticated s0.(auth) = true
  ∧ s0.(auth).(_currentUser) = Some user
  ∧ s0.(auth).(storage) = st
  ∧ s0.(auth).(isRefreshing) = false
  ∧ s0.(sent) = []
  ∧ s0.(pending) = ∅
  ∧ s0.(delivered) = []
  ∧ s0.(navigations) = [].
Proof.
  intros Ha Hane Hu He Hparse Hfuture.
  assert (Hexp : nonEmpty expiry = true).
  { destruct expiry; [discriminate Hparse | reflexivity]. }
  assert (Hboot : boot st t
                  = onAuth (λ a, setIsLoggedIn true (setCurrentUser (Some user) a))
                      {| auth := newAuthService st; now := t; pending := ∅;
                         nextId := 0%nat; sent := []; waiters := []; delivered := [];
                         navigations := [] |}).
  { unfold boot, initializeAuthState. cbn. rewrite He, Hu. unfold getAccessToken. cbn.
    rewrite Ha. cbn. rewrite Hane, Hexp, Hparse. cbn.
    replace (t <? expiresAt) with true by (symmetry; apply Z.ltb_lt; lia).
    reflexivity. }
  cbv zeta. rewrite Hboot. cbn. repeat split.
Qed.

Lemma restore_valid_session_witness :
  storedSession.(ACCESS_TOKEN) = Some "A0" ∧ nonEmpty "A0" = true
  ∧ storedSession.(USER_PROFILE) = Some (Parsed alice)
  ∧ storedSession.(TOKEN_EXPIRY) = Some "1700000300000"
  ∧ parseInt "1700000300000" = Some 1700000300000
  ∧ earlyStart < 1700000300000
  ∧ isAuthenticated (boot storedSession earlyStart).(auth) = true
  ∧ (boot storedSession earlyStart).(sent) = [].
Proof.
  assert (Hparse : parseInt "1700000300000" = Some 1700000300000)
    by (vm_compute; reflexivity).
  assert (Hfuture : earlyStart < 1700000300000) by (unfold earlyStart; lia).
  pose proof (restore_valid_session storedSession earlyStart 1700000300000
                "A0" "1700000300000" alice
                eq_refl eq_refl eq_refl eq_refl Hparse Hfuture)
    as (Hauth & _ & _ & _ & Hsent & _).
  repeat (split; [first [reflexivity | assumption] |]). exact Hsent.
Defined.

End StartFacts.

(** ** The coordinator over all reachable states *)

Section CoordinatorFacts.
Import Js Routes Http Auth.

(** X8. In every reachable state at most one refresh call is in the
    network, and one is only while [isRefreshing] is set. *)
Theorem at_most_one_refresh_in_flight (s : System) (i j : nat) (c c' : Consumer) :
  reachable s →
  s.(pending) !! i = Some (RefreshPost c) →
  s.(pending) !! j = Some (RefreshPost c') →
  i = j ∧ c = c' ∧ s.(auth).(isRefreshing) = true.
Proof.
  intros Hreach Hi Hj.
  destruct (reachable_singleFlight s Hreach) as (_ & Huniq & Hflag).
  assert (Hij : i = j) by (eapply Huniq; eauto).
  subst j. split; [reflexivity |]. split; [congruence |].
  eapply Hflag; [exact Hi | reflexivity].
Qed.

Lemma at_most_one_refresh_in_flight_witness :
  reachable refreshing
  ∧ refreshing.(pending) !! 0%nat = Some (RefreshPost (RefreshSubscriber 1))
  ∧ refreshing.(auth).(isRefreshing) = true.
Proof.
  assert (Hr : reachable refreshing).
  { apply (reachable_step restored (RefreshToken 1)); [constructor | reflexivity]. }
  assert (Hp : refreshing.(pending) !! 0%nat = Some (RefreshPost (RefreshSubscriber 1)))
    by (vm_compute; reflexivity).
  split; [exact Hr |]. split; [exact Hp |].
  exact (proj2 (proj2 (at_most_one_refresh_in_flight refreshing 0 0 _ _ Hr Hp Hp))).
Defined.

Ltac peel_coordinator :=
  repeat match goal with
         | |- isRefreshing (auth (consume ?c ?o ?x)) = _ =>
             destruct (consume_sameCoordinator c o x) as (_ & -> & _)
         | |- isRefreshing (auth (notifyWaiters ?t ?x)) = _ =>
             destruct (notifyWaiters_coordinator t x) as (_ & -> & _)
         | |- isRefreshing (auth (fold_left _ ?ws ?x)) = _ =>
             destruct (fold_waiters_sameCoordinator EmptyString ws x) as (_ & -> & _)
         end.

Lemma refreshSucceeded_idle (response : TokenResponse) (c : Consumer) (s : System) :
  (refreshSucceeded response c s).(auth).(isRefreshing) = false.
Proof. unfold refreshSucceeded. peel_coordinator. reflexivity. Qed.

Lemma refreshFailed_idle (error : Error) (c : Consumer) (s : System) :
  (refreshFailed error c s).(auth).(isRefreshing) = false.
Proof. unfold refreshFailed. peel_coordinator. cbn. peel_coordinator. reflexivity. Qed.

(** X9. In every reachable state the answer to the refresh call, success
    or failure, brings the coordinator back to rest: [isRefreshing] is
    reset, no caller is left waiting, and no refresh call is in the
    network. *)
Theorem refresh_answer_returns_to_idle (s s' : System) (id : nat) (c : Consumer)
    (r : Response) :
  reachable s →
  s.(pending) !! id = Some (RefreshPost c) →
  step s (Respond id r) = Some s' →
  s'.(auth).(isRefreshing) = false
  ∧ s'.(waiters) = []
  ∧ ∀ i p, s'.(pending) !! i = Some p → isRefreshPost p = false.
Proof.
  intros Hreach Hid Hstep.
  pose proof (delete_refresh_quiet id c s (reachable_singleFlight s Hreach) Hid) as Hq.
  cbn in Hstep. rewrite Hid in Hstep.
  destruct r as [[response | | | |] | status e]; cbn in Hstep; try discriminate;
    injection Hstep as <-.
  - pose proof (refreshSucceeded_idle response c (setPending (delete id s.(pending)) s))
      as Hidle.
    split; [exact Hidle |]. split.
    + apply (proj1 (refreshSucceeded_coordinated response c _)). exact Hidle.
    + unfold refreshSucceeded.
      eapply grows_quiet; [| apply consume_grows].
      eapply grows_quiet; [| apply notifyWaiters_grows]. exact Hq.
  - set (error := HttpErrorResponse status (apiUrl +:+ "/refresh") e).
    pose proof (refreshFailed_idle error c (setPending (delete id s.(pending)) s))
      as Hidle.
    split; [exact Hidle |]. split.
    + apply (proj1 (refreshFailed_coordinated error c _)). exact Hidle.
    + unfold refreshFailed.
      eapply grows_quiet; [| apply consume_grows].
      eapply grows_quiet; [| by apply grows_frame].
      eapply grows_quiet; [| apply notifyWaiters_grows]. exact Hq.
Qed.

Lemma refresh_answer_returns_to_idle_witness :
  reachable refreshing
  ∧ refreshing.(pending) !! 0%nat = Some (RefreshPost (RefreshSubscriber 1))
  ∧ (∃ s', step refreshing (Respond 0 (Failed 400 NoErrorPayload)) = Some s'
           ∧ s'.(auth).(isRefreshing) = false ∧ s'.(waiters) = []).
Proof.
  assert (Hr : reachable refreshing).
  { apply (reachable_step restored (RefreshToken 1)); [constructor | reflexivity]. }
  assert (Hp : refreshing.(pending) !! 0%nat = Some (RefreshPost (RefreshSubscriber 1)))
    by (vm_compute; reflexivity).
  split; [exact Hr |]. split; [exact Hp |].
  eexists. split; [reflexivity |].
  destruct (refresh_answer_returns_to_idle refreshing _ 0 _ (Failed 400 NoErrorPayload)
              Hr Hp eq_refl) as (H1 & H2 & _).
  split; [exact H1 | exact H2].
Defined.

(** X10. In every reachable state callers wait on the subject only while a
    refresh runs, and the subject holds [null] all that time, so that each of
    them gets the outcome of that refresh and not a value left from an
    earlier one. *)
Theorem waiters_only_while_refreshing (s : System) :
  reachable s →
  (s.(waiters) ≠ [] → s.(auth).(isRefreshing) = true)
  ∧ (s.(auth).(isRefreshing) = true → s.(auth).(refreshTokenSubject) = None).
Proof.
  intros Hreach. destruct (reachable_coordinated s Hreach) as [Hidle Hnull].
  split; [| exact Hnull].
  intros Hw. destruct (isRefreshing (auth s)); [reflexivity |].
  exfalso. apply Hw, Hidle. reflexivity.
Qed.

Lemma waiters_only_while_refreshing_witness :
  reachable refreshing
  ∧ (refreshing.(auth).(isRefreshing) = true
     → refreshing.(auth).(refreshTokenSubject) = None).
Proof.
  assert (Hr : reachable refreshing).
  { apply (reachable_step restored (RefreshToken 1)); [constructor | reflexivity]. }
  split; [exact Hr |]. exact (proj2 (waiters_only_while_refreshing refreshing Hr)).
Defined.

(** X11. A logout while a refresh runs does not stop it.  When the refresh
    then succeeds (with a non-empty access token), [storeTokens] writes the
    new tokens into the storage that the logout had emptied, while the
    logged-in flag stays down and no user is in memory. *)
Theorem logout_during_refresh_is_overwritten (s : System) (id : nat) (c : Consumer)
    (response : TokenResponse) :
  reachable s →
  s.(pending) !! id = Some (RefreshPost c) →
  nonEmpty response.(access_token) = true →
  ∃ s2,
    run s [Logout; Respond id (Ok (TokenBody response))] = Some s2
    ∧ getAccessToken s2.(auth) = Some response.(access_token)
    ∧ getRefreshToken s2.(auth) = Some (toDOMString response.(refresh_token))
    ∧ s2.(auth).(_isLoggedIn) = false
    ∧ s2.(auth).(_currentUser) = None
    ∧ isAuthenticated s2.(auth) = false.
Proof.
  intros Hreach Hid Hne.
  destruct (reachable_singleFlight s Hreach) as (Hfresh & _ & _).
  assert (Hlt : (id < s.(nextId))%nat) by (apply Hfresh; eauto).
  assert (Hkeep : (logout s).(pending) !! id = Some (RefreshPost c)).
  { unfold logout. destruct (getRefreshToken (auth s)) as [rt |];
      [destruct (nonEmpty rt) |]; cbn; try exact Hid.
    rewrite lookup_insert_ne by lia. exact Hid. }
  cbn [run step]. rewrite Hkeep. cbn [wellTyped].
  eexists. split; [reflexivity |].
  unfold respond, refreshSucceeded.
  rewrite consume_next_auth, notifyWaiters_token_auth by exact Hne.
  unfold logout. destruct (getRefreshToken (auth s)) as [rt |];
    [destruct (nonEmpty rt) |]; repeat split.
Qed.

Lemma logout_during_refresh_is_overwritten_witness :
  reachable refreshing
  ∧ refreshing.(pending) !! 0%nat = Some (RefreshPost (RefreshSubscriber 1))
  ∧ nonEmpty rotated.(access_token) = true
  ∧ (∃ s2, run refreshing [Logout; Respond 0 (Ok (TokenBody rotated))] = Some s2
           ∧ getAccessToken s2.(auth) = Some "A1"
           ∧ s2.(auth).(_isLoggedIn) = false).
Proof.
  assert (Hr : reachable refreshing).
  { apply (reachable_step restored (RefreshToken 1)); [constructor | reflexivity]. }
  assert (Hp : refreshing.(pending) !! 0%nat = Some (RefreshPost (RefreshSubscriber 1)))
    by (vm_compute; reflexivity).
  destruct (logout_during_refresh_is_overwritten refreshing 0 _ rotated Hr Hp eq_refl)
    as (s2 & Hrun & Ha & _ & Hl & _).
  split; [exact Hr |]. split; [exact Hp |]. split; [reflexivity |].
  exists s2. repeat split; assumption.
Defined.

End CoordinatorFacts.

(** ** The profile in memory and the profile in storage *)

Section ProfileFacts.
Import Js Routes Http Auth.

Ltac crush_cached :=
  unfold profileCached in *; cbn in *;
  try solve [ intros; first [ discriminate | congruence | eauto ] ].

Lemma logout_cached (s : System) : profileCached (logout s).
Proof. unfold profileCached, logout. cbn. discriminate. Qed.

Lemma afterProfile_cached (after : AfterProfile) (o : Outcome) (s : System) :
  profileCached s → profileCached (afterProfile after o s).
Proof.
  intros H. destruct after as [[c |] | response c |]; try destruct o; crush_cached.
Qed.

Lemma deliver_cached (pipe : Pipe) (o : Outcome) (s : System) :
  profileCached s → profileCached (deliver pipe o s).
Proof.
  intros H. destruct pipe as [c | | c | c | after].
  - crush_cached.
  - destruct o; crush_cached.
  - destruct o; crush_cached.
  - destruct o as [[] | e]; crush_cached.
  - destruct o as [[] | e]; try exact H.
    + apply afterProfile_cached. crush_cached.
    + cbn. apply afterProfile_cached. destruct (isStatus 401 e); crush_cached.
Qed.

Lemma consume_cached (c : Consumer) (o : Outcome) (s : System) :
  profileCached s → profileCached (consume c o s).
Proof.
  intros H. destruct c as [req pipe | | caller]; destruct o; try exact H.
  - cbn. apply deliver_cached, logout_cached.
  - cbn. crush_cached.
Qed.

Lemma fold_waiters_cached (token : string) (ws : list Consumer) (s : System) :
  profileCached s → profileCached (fold_left (λ s' c, waiterReceives token c s') ws s).
Proof.
  revert s. induction ws as [| c ws IH]; intros s H; cbn; [exact H |].
  apply IH, consume_cached, H.
Qed.

Lemma refreshToken_cached (c : Consumer) (s : System) :
  profileCached s → profileCached (refreshToken c s).
Proof.
  intros H. unfold refreshToken.
  destruct (getRefreshToken (auth s)) as [rt |];
    [destruct (nonEmpty rt) |]; try (apply consume_cached; crush_cached).
  destruct (isRefreshing (auth s)); [| exact H].
  destruct (refreshTokenSubject (auth s)); [| exact H].
  apply consume_cached, H.
Qed.

Lemma respond_cached (p : Pending) (r : Response) (s : System) :
  profileCached s → profileCached (respond p r s).
Proof.
  intros H. destruct p as [req pipe | req pipe | c]; cbn.
  - destruct r as [b | status e]; cbn; [by apply deliver_cached |].
    destruct (authInterceptor_refreshes _ _ _);
      [by apply refreshToken_cached | by apply deliver_cached].
  - destruct r as [b | status e]; cbn; [by apply deliver_cached |].
    apply deliver_cached, logout_cached.
  - destruct r as [[] | status e]; try exact H.
    + unfold refreshSucceeded, notifyWaiters.
      apply consume_cached, fold_waiters_cached. crush_cached.
    + unfold refreshFailed. apply consume_cached. crush_cached.
Qed.

Lemma step_cached (s s' : System) (e : Event) :
  step s e = Some s' → profileCached s → profileCached s'.
Proof.
  intros Hstep H. destruct e; cbn in Hstep.
  - injection Hstep as <-. exact H.
  - injection Hstep as <-. exact H.
  - injection Hstep as <-. apply logout_cached.
  - injection Hstep as <-. by apply refreshToken_cached.
  - injection Hstep as <-. exact H.
  - injection Hstep as <-. exact H.
  - destruct (pending s !! id) as [p |]; [| discriminate].
    destruct (wellTyped p r); [| discriminate].
    injection Hstep as <-. apply respond_cached. exact H.
  - destruct (0 <=? ms); [| discriminate]. injection Hstep as <-. exact H.
Qed.

Lemma boot_cached (st : Storage) (t : Z) : profileCached (boot st t).
Proof.
  unfold profileCached. boot_cases st; intros u H; try discriminate H; congruence.
Qed.

(** X12. In every reachable state the user in memory is the user whose
    profile is in storage: the two are set together and cleared together. *)
Theorem current_user_is_stored (s : System) (u : User) :
  reachable s →
  s.(auth).(_currentUser) = Some u →
  s.(auth).(storage).(USER_PROFILE) = Some (Parsed u).
Proof.
  intros Hreach. revert u.
  induction Hreach as [st t | s e s' _ IH Hstep]; [apply boot_cached |].
  eapply step_cached; eassumption.
Qed.

Lemma current_user_is_stored_witness :
  reachable restored
  ∧ restored.(auth).(_currentUser) = Some alice
  ∧ restored.(auth).(storage).(USER_PROFILE) = Some (Parsed alice).
Proof.
  assert (Hr : reachable restored) by constructor.
  assert (Hu : restored.(auth).(_currentUser) = Some alice) by reflexivity.
  split; [exact Hr |]. split; [exact Hu |].
  exact (current_user_is_stored restored alice Hr Hu).
Defined.

End ProfileFacts.

(** ** Many requests refused at once *)

Section ManyUnauthorized.
Import Js Routes Http Auth.

Lemma taken_lookup (l : list InFlight) (m : gmap nat Pending) (k : nat) :
  k ∉ map flight_id l → taken l m !! k = m !! k.
Proof.
  revert m. induction l as [| f l IH]; intros m Hk; [reflexivity |].
  cbn. rewrite IH by (intros Hin; apply Hk; right; exact Hin).
  apply lookup_delete_ne. intros <-. apply Hk. left.
Qed.

(** While a refresh runs, each further 401 queues its request. *)
Lemma queue_unauthorized (l : list InFlight) (s : System) (rt : string)
    (e401 : ErrorPayload) :
  s.(auth).(_isLoggedIn) = true →
  getRefreshToken s.(auth) = Some rt → nonEmpty rt = true →
  s.(auth).(isRefreshing) = true → s.(auth).(refreshTokenSubject) = None →
  NoDup (map flight_id l) →
  Forall (λ f, awaited s f ∧ isAuthEndpoint f.(flight_req).(url) = false) l →
  run s (map (λ f, Respond f.(flight_id) (Failed 401 e401)) l)
  = Some (setWaiters (s.(waiters) ++ map retryOf l)
            (setPending (taken l s.(pending)) s)).
Proof.
  revert s. induction l as [| f l IH]; intros s Hin Hrt Hne Hr Hs Hdup Hall.
  - cbn. rewrite app_nil_r. destruct s; reflexivity.
  - apply NoDup_cons in Hdup as [Hf Hdup].
    apply Forall_cons in Hall as [[Hfp Hfa] Hall].
    cbn [map run step]. unfold awaited in Hfp. rewrite Hfp. cbn [wellTyped respond outcomeOf].
    assert (Hyes : authInterceptor_refreshes
                     (setPending (delete f.(flight_id) s.(pending)) s).(auth)
                     f.(flight_req)
                     (HttpErrorResponse 401 f.(flight_req).(url) e401) = true).
    { unfold authInterceptor_refreshes. cbn. rewrite Hfa, Hin. reflexivity. }
    rewrite Hyes.
    rewrite (refreshToken_while_refreshing
               (setPending (delete f.(flight_id) s.(pending)) s) _ rt Hrt Hne Hr Hs).
    rewrite (IH (setWaiters (s.(waiters) ++ [retryOf f])
                   (setPending (delete f.(flight_id) s.(pending)) s))
                Hin Hrt Hne Hr Hs Hdup); cbn.
    + rewrite <- app_assoc. reflexivity.
    + apply Forall_forall. intros g Hg.
      destruct (proj1 (Forall_forall _ _) Hall g Hg) as [Hgp Hga].
      split; [| exact Hga]. unfold awaited in *. cbn.
      rewrite lookup_delete_ne; [exact Hgp |].
      intros Heq. apply Hf. rewrite Heq. apply list_elem_of_fmap_2. exact Hg.
Qed.

(** A new token reaches the queued requests: each is sent again with it. *)
Lemma fold_retries (token : string) (l : list InFlight) (s : System) :
  getAccessToken s.(auth) = Some token → nonEmpty token = true →
  let s' := fold_left (λ s' c, waiterReceives token c s') (map retryOf l) s in
  s'.(sent) = s.(sent) ++ map (λ f, withBearer token f.(flight_req)) l
  ∧ s'.(auth) = s.(auth)
  ∧ s'.(delivered) = s.(delivered).
Proof.
  intros Ht Hne. revert s Ht. induction l as [| f l IH]; intros s Ht.
  - cbn. rewrite app_nil_r. repeat split.
  - assert (Hone : waiterReceives token (retryOf f) s
                   = transmit (withBearer token f.(flight_req))
                       (Retry f.(flight_req) (Subscriber f.(flight_caller))) s).
    { unfold waiterReceives, waiterOutcome. rewrite Hne. cbn. rewrite Ht. reflexivity. }
    cbn [map fold_left]. rewrite Hone.
    destruct (IH (transmit (withBearer token f.(flight_req))
                    (Retry f.(flight_req) (Subscriber f.(flight_caller))) s) Ht)
      as (Hsent & Hauth & Hdel).
    cbv zeta. split; [| split].
    + rewrite Hsent. cbn. rewrite <- app_assoc. reflexivity.
    + exact Hauth.
    + exact Hdel.
Qed.

(** X13. Any number of requests of outside subscribers are in the network
    in a reachable state (logged in, a non-empty refresh token stored, no
    refresh running), none of them a login, registration or refresh call,
    and each is answered 401, one after the other.  One refresh call goes
    out, and nothing is handed to anybody.  When it succeeds with a
    non-empty access token, every one of the requests is sent once more
    with that token as bearer, the ones that had to wait first, in the order
    of their arrival, and the one that started the refresh last. *)
Theorem many_unauthorized_one_refresh (s : System) (first : InFlight)
    (others : list InFlight) (rt : string) (e401 : ErrorPayload) :
  reachable s →
  s.(auth).(_isLoggedIn) = true →
  getRefreshToken s.(auth) = Some rt → nonEmpty rt = true →
  s.(auth).(isRefreshing) = false →
  NoDup (map flight_id (first :: others)) →
  Forall (λ f, awaited s f ∧ isAuthEndpoint f.(flight_req).(url) = false)
         (first :: others) →
  ∃ s1,
    run s (map (λ f, Respond f.(flight_id) (Failed 401 e401)) (first :: others))
    = Some s1
    ∧ s1.(sent) = s.(sent) ++ [refreshRequest rt]
    ∧ s1.(delivered) = s.(delivered)
    ∧ ∀ response, nonEmpty response.(access_token) = true →
      ∃ s2,
        step s1 (Respond s.(nextId) (Ok (TokenBody response))) = Some s2
        ∧ s2.(sent)
          = s1.(sent)
            ++ map (λ f, withBearer response.(access_token) f.(flight_req))
                   (others ++ [first])
        ∧ s2.(delivered) = s.(delivered)
        ∧ getAccessToken s2.(auth) = Some response.(access_token)
        ∧ s2.(auth).(isRefreshing) = false.
Proof.
  intros Hreach Hin Hrt Hne Hidle Hdup Hall.
  pose proof (proj1 (reachable_coordinated s Hreach) Hidle) as Hw.
  destruct (reachable_singleFlight s Hreach) as (Hfresh & _ & _).
  apply NoDup_cons in Hdup as [Hf Hdup].
  apply Forall_cons in Hall as [[Hfp Hfa] Hall].
  assert (Hbelow : ∀ g, g ∈ others → (g.(flight_id) < s.(nextId))%nat).
  { intros g Hg. destruct (proj1 (Forall_forall _ _) Hall g Hg) as [Hgp _].
    apply Hfresh. unfold awaited in Hgp. eauto. }
  cbn [map run step]. unfold awaited in Hfp. rewrite Hfp.
  cbn [wellTyped respond outcomeOf].
  assert (Hyes : authInterceptor_refreshes
                   (setPending (delete first.(flight_id) s.(pending)) s).(auth)
                   first.(flight_req)
                   (HttpErrorResponse 401 first.(flight_req).(url) e401) = true).
  { unfold authInterceptor_refreshes. cbn. rewrite Hfa, Hin. reflexivity. }
  rewrite Hyes. unfold refreshToken at 1. cbn [auth setPending].
  rewrite Hrt, Hne, Hidle.
  rewrite (proj1 (refreshRequest_not_intercepted _ _ (JsError "none"))).
  erewrite (queue_unauthorized others _ rt e401);
    [| exact Hin | exact Hrt | exact Hne | reflexivity | reflexivity | exact Hdup |].
  2:{ apply Forall_forall. intros g Hg.
      destruct (proj1 (Forall_forall _ _) Hall g Hg) as [Hgp Hga].
      split; [| exact Hga]. unfold awaited in *. cbn.
      rewrite lookup_insert_ne by (specialize (Hbelow g Hg); lia).
      rewrite lookup_delete_ne; [exact Hgp |].
      intros Heq. apply Hf. rewrite Heq. apply list_elem_of_fmap_2. exact Hg. }
  eexists. split; [reflexivity |]. cbn. rewrite Hw. cbn.
  split; [reflexivity |]. split; [reflexivity |].
  intros response Hresp.
  rewrite taken_lookup.
  2:{ intros Hmem. apply list_elem_of_fmap in Hmem as (g & Heq & Hg).
      specialize (Hbelow g Hg). lia. }
  rewrite lookup_insert_eq. cbn [wellTyped].
  eexists. split; [reflexivity |].
  unfold respond, refreshSucceeded, notifyWaiters. cbn [waiters setWaiters setPending onAuth].
  match goal with
  | |- context [fold_left ?f (map retryOf others) ?x] =>
      destruct (fold_retries response.(access_token) others x eq_refl Hresp)
        as (Hsent & Hauth & Hdel);
      cbv zeta in Hsent, Hauth, Hdel;
      set (served := fold_left f (map retryOf others) x) in *;
      clearbody served
  end.
  cbn [consume sent delivered auth transmit]. rewrite Hauth, Hsent, Hdel. cbn.
  split; [| repeat split].
  rewrite map_app. cbn. rewrite <- !app_assoc. reflexivity.
Qed.

Lemma many_unauthorized_one_refresh_witness :
  reachable callingTwice
  ∧ callingTwice.(auth).(_isLoggedIn) = true
  ∧ getRefreshToken callingTwice.(auth) = Some "R0" ∧ nonEmpty "R0" = true
  ∧ callingTwice.(auth).(isRefreshing) = false
  ∧ NoDup (map flight_id [firstFlight; secondFlight])
  ∧ Forall (λ f, awaited callingTwice f ∧ isAuthEndpoint f.(flight_req).(url) = false)
           [firstFlight; secondFlight]
  ∧ (∃ s1, run callingTwice [Respond 0 (Failed 401 NoErrorPayload);
                             Respond 1 (Failed 401 NoErrorPayload)] = Some s1
           ∧ s1.(sent) = callingTwice.(sent) ++ [refreshRequest "R0"]).
Proof.
  assert (Hreach : reachable callingTwice).
  { apply (reachable_step calling (Call 2 ratingsRequest)); [| reflexivity].
    apply (reachable_step restored (Call 1 ratingsRequest)); [constructor | reflexivity]. }
  assert (Hdup : NoDup (map flight_id [firstFlight; secondFlight])).
  { cbn. repeat constructor; rewrite ?list_elem_of_In; cbn; [lia | tauto]. }
  assert (Hall : Forall (λ f, awaited callingTwice f
                              ∧ isAuthEndpoint f.(flight_req).(url) = false)
                   [firstFlight; secondFlight]).
  { repeat constructor; vm_compute; reflexivity. }
  destruct (many_unauthorized_one_refresh callingTwice firstFlight [secondFlight] "R0"
              NoErrorPayload Hreach eq_refl eq_refl eq_refl eq_refl Hdup Hall)
    as (s1 & Hrun & Hsent & _).
  split; [exact Hreach |]. repeat (split; [first [reflexivity | assumption] |]).
  exists s1. split; assumption.
Defined.

End ManyUnauthorized.

(** ** WatchlistService: list and membership set *)

Section WatchlistMore.
Import Watchlist.

Lemma idsOf_elem (movies : list MovieSummary) (id : Z) :
  id ∈ idsOf movies ↔ ∃ m, m ∈ movies ∧ m.(tmdbId) = id.
Proof.
  unfold idsOf. rewrite elem_of_list_to_set, list_elem_of_In, List.in_map_iff.
  split; intros (m & H1 & H2); exists m; rewrite ?list_elem_of_In in *; tauto.
Qed.

Lemma idsOf_filter (movies : list MovieSummary) (id : Z) :
  idsOf (filter (λ m, m.(tmdbId) ≠ id) movies) = idsOf movies ∖ {[id]}.
Proof.
  apply set_eq. intros x.
  rewrite elem_of_difference, elem_of_singleton, !idsOf_elem. split.
  - intros (m & Hm & <-). apply list_elem_of_filter in Hm as [Hne Hm]. eauto.
  - intros [(m & Hm & <-) Hne]. exists m. split; [| reflexivity].
    apply list_elem_of_filter. auto.
Qed.

(** X14. [toggleWatchlist] flips what [isInWatchlist] answers for the movie
    at once, before the server has said anything. *)
Theorem toggleWatchlist_flips (s : System) (caller : nat) (id : Z) :
  isInWatchlist id (toggleWatchlist caller id s) = negb (isInWatchlist id s).
Proof.
  unfold toggleWatchlist. destruct (isInWatchlist id s) eqn:Hin; cbn.
  - apply bool_decide_eq_false. cbn. intros H. apply elem_of_difference in H as [_ H].
    apply H, elem_of_singleton. reflexivity.
  - apply addToWatchlist_optimistic.
Qed.

(** X15. Removing a movie while list and set agree: at once the movie is in
    neither, the other movies keep their order, and list and set still
    agree; when the request succeeds nothing changes any more and the caller
    is done; when it fails, list and set are exactly what they were before
    the call, and the caller receives the error. *)
Theorem removeFromWatchlist_settles (s : System) (caller : nat) (id : Z) (r : Reply) :
  consistent s →
  let s1 := removeFromWatchlist caller id s in
  consistent s1
  ∧ isInWatchlist id s1 = false
  ∧ s1.(service).(_watchlistMovies)
    = filter (λ m, m.(tmdbId) ≠ id) s.(service).(_watchlistMovies)
  ∧ ∃ s2, step s1 (Settle s.(nextId) r) = Some s2
          ∧ consistent s2
          ∧ match r with
            | Success _ =>
                s2.(service) = s1.(service)
                ∧ s2.(delivered) = s.(delivered) ++ [(caller, Done)]
            | Failure e =>
                s2.(service).(_watchlistMovies) = s.(service).(_watchlistMovies)
                ∧ s2.(service).(_watchlistIds) = s.(service).(_watchlistIds)
                ∧ s2.(delivered) = s.(delivered) ++ [(caller, Fail e)]
            end.
Proof.
  unfold consistent. intros Hc. cbn.
  split; [rewrite Hc; symmetry; apply idsOf_filter |].
  split.
  { apply bool_decide_eq_false. intros H. apply elem_of_difference in H as [_ H].
    apply H, elem_of_singleton. reflexivity. }
  split; [reflexivity |].
  rewrite lookup_insert_eq. eexists. split; [reflexivity |].
  destruct r as [l | e]; cbn.
  - split; [rewrite Hc; symmetry; apply idsOf_filter |]. split; reflexivity.
  - split; [reflexivity |]. split; [reflexivity |]. split; [symmetry; exact Hc | reflexivity].
Qed.

Lemma removeFromWatchlist_settles_witness :
  consistent listed
  ∧ isInWatchlist 603 listed = true
  ∧ isInWatchlist 603 (removeFromWatchlist 1 603 listed) = false
  ∧ (removeFromWatchlist 1 603 listed).(service).(_watchlistMovies) = [alien]
  ∧ (∃ s2, step (removeFromWatchlist 1 603 listed)
             (Settle 0 (Failure (Http.HttpErrorResponse 500 (movieUrl 603)
                                   Http.NoErrorPayload))) = Some s2
           ∧ s2.(service).(_watchlistMovies) = [theMatrix; alien]
           ∧ s2.(service).(_watchlistIds) = idsOf [theMatrix; alien]
           ∧ isInWatchlist 603 s2 = true).
Proof.
  assert (H : consistent listed) by reflexivity.
  destruct (removeFromWatchlist_settles listed 1 603
              (Failure (Http.HttpErrorResponse 500 (movieUrl 603) Http.NoErrorPayload)) H)
    as (_ & Hout & Hlist & s2 & Hstep & _ & Hmovies & Hids & _).
  split; [exact H |]. split; [vm_compute; reflexivity |].
  split; [exact Hout |]. split; [rewrite Hlist; vm_compute; reflexivity |].
  exists s2. split; [exact Hstep |]. split; [exact Hmovies |]. split; [exact Hids |].
  unfold isInWatchlist. rewrite Hids. vm_compute. reflexivity.
Defined.

(** X16. A fetch that succeeds puts the server's list in place: a movie is
    a member exactly if it is in that list, the caller receives the list,
    the loading flag is down and the error signal empty. *)
Theorem fetchWatchlist_success (s : System) (caller : nat) (movies : list MovieSummary) :
  ∃ s2, run s [FetchWatchlist caller; Settle s.(nextId) (Success movies)] = Some s2
        ∧ s2.(service).(_watchlistMovies) = movies
        ∧ consistent s2
        ∧ (∀ id, isInWatchlist id s2 = true ↔ ∃ m, m ∈ movies ∧ m.(tmdbId) = id)
        ∧ s2.(service).(_isLoading) = false
        ∧ s2.(service).(_error) = None
        ∧ s2.(delivered) = s.(delivered) ++ [(caller, Movies movies)].
Proof.
  cbn. rewrite lookup_insert_eq. eexists. split; [reflexivity |]. cbn.
  split; [reflexivity |]. split; [reflexivity |]. split; [| repeat split].
  intros id. unfold isInWatchlist. cbn. rewrite bool_decide_eq_true. apply idsOf_elem.
Qed.

(** X17. A fetch that fails is not an error for its caller: the caller
    receives the empty list, the list and the set in the service stay as
    they were, and the error signal tells of the failure. *)
Theorem fetchWatchlist_failure (s : System) (caller : nat) (e : Http.Error) :
  ∃ s2, run s [FetchWatchlist caller; Settle s.(nextId) (Failure e)] = Some s2
        ∧ s2.(service).(_watchlistMovies) = s.(service).(_watchlistMovies)
        ∧ s2.(service).(_watchlistIds) = s.(service).(_watchlistIds)
        ∧ s2.(service).(_isLoading) = false
        ∧ s2.(service).(_error) = Some "Failed to fetch watchlist"
        ∧ s2.(delivered) = s.(delivered) ++ [(caller, Movies [])].
Proof. cbn. rewrite lookup_insert_eq. eexists. split; [reflexivity |]. repeat split. Qed.


End WatchlistMore.

(** ** RatingService: the cached ratings *)

Section RatingMore.
Import Rating.

Lemma fold_ratings_lookup (ratings : list UserRating) (m : gmap Z float) (id : Z) :
  fold_left (λ m r, <[r.(tmdbId) := r.(score)]> m) ratings m !! id
  = match last (filter (λ r, r.(tmdbId) = id) ratings) with
    | Some r => Some r.(score)
    | None => m !! id
    end.
Proof.
  revert m. induction ratings as [| r ratings IH]; intros m; [reflexivity |].
  cbn [fold_left]. rewrite IH. rewrite filter_cons.
  destruct (decide (r.(tmdbId) = id)) as [Heq | Hne].
  - rewrite last_cons. destruct (last (filter _ ratings)); [reflexivity |].
    rewrite Heq. apply lookup_insert_eq.
  - destruct (last (filter _ ratings)); [reflexivity |]. by apply lookup_insert_ne.
Qed.

(** X19. After a fetch that succeeds, the cached rating of a movie is the
    score of the last entry for it in the list the server sent, and there is
    none if the list has no entry for it. *)
Theorem fetchUserRatings_caches_last (s : System) (caller : nat)
    (ratings : list UserRating) (id : Z) :
  ∃ s2, run s [FetchUserRatings caller; Settle s.(nextId) (Success ratings)] = Some s2
        ∧ s2.(service).(_userRatings) = ratings
        ∧ getCachedRating id s2
          = score <$> last (filter (λ r, r.(tmdbId) = id) ratings)
        ∧ (hasRated id s2 = true ↔ ∃ r, r ∈ ratings ∧ r.(tmdbId) = id)
        ∧ s2.(delivered) = s.(delivered) ++ [(caller, Ratings ratings)].
Proof.
  cbn. rewrite lookup_insert_eq. eexists. split; [reflexivity |]. cbn.
  split; [reflexivity |].
  assert (Hget : lookupMap ratings !! id
                 = score <$> last (filter (λ r, r.(tmdbId) = id) ratings)).
  { unfold lookupMap. rewrite fold_ratings_lookup.
    destruct (last _); [reflexivity | apply lookup_empty]. }
  split; [exact Hget |]. split; [| reflexivity].
  unfold hasRated. cbn. rewrite bool_decide_eq_true, Hget. split.
  - intros [x Hx]. destruct (last _) as [r |] eqn:Hl; [| discriminate].
    exists r. apply last_Some_elem_of in Hl.
    apply list_elem_of_filter in Hl. tauto.
  - intros (r & Hr & Hid).
    destruct (last _) eqn:Hl; [eauto |]. apply last_None in Hl.
    assert (Hin : r ∈ filter (λ r, r.(tmdbId) = id) ratings)
      by (apply list_elem_of_filter; auto).
    rewrite Hl in Hin. by apply elem_of_nil in Hin.
Qed.

(** X20. A rating inside the range that the server accepts is cached at
    once, before the list is asked for again; the request carries the
    comment only if it is not empty; one request for the list follows; the
    caller receives a value, and the loading flag is down although the list
    is still under way. *)
Theorem rateMovie_success (s : System) (caller : nat) (id : Z) (score : float)
    (comment : option string) (ignored : list UserRating) :
  (1 <=? score)%float = true ∧ (score <=? 5)%float = true →
  ∃ s2, run s [RateMovie caller id score comment; Settle s.(nextId) (Success ignored)]
        = Some s2
        ∧ getCachedRating id s2 = Some score
        ∧ (∀ other, other ≠ id → getCachedRating other s2 = getCachedRating other s)
        ∧ s2.(service).(_userRatings) = s.(service).(_userRatings)
        ∧ s2.(sent) = s.(sent)
                      ++ [PostRating {| request_tmdbId := id; request_score := score;
                                        request_comment :=
                                          if Js.truthy comment then comment else None |};
                          GetRatings]
        ∧ s2.(pending) !! S s.(nextId) = Some (FetchPipe None)
        ∧ s2.(service).(_isLoading) = false
        ∧ s2.(delivered) = s.(delivered) ++ [(caller, Undefined)].
Proof.
  intros [H1 H5]. cbn [run step]. unfold rateMovie.
  rewrite (guard_in_range score H1 H5).
  cbn. rewrite lookup_insert_eq. eexists. split; [reflexivity |]. cbn.
  split; [apply lookup_insert_eq |].
  split; [intros other Hne; unfold getCachedRating; cbn; by apply lookup_insert_ne |].
  split; [reflexivity |]. split; [rewrite <- app_assoc; reflexivity |].
  split; [apply lookup_insert_eq |]. split; reflexivity.
Qed.

Lemma rateMovie_success_witness :
  ((1 <=? 4)%float = true ∧ (4 <=? 5)%float = true)
  ∧ (∃ s2, run initial [RateMovie 1 42 4%float None; Settle 0 (Success [])] = Some s2
           ∧ getCachedRating 42 s2 = Some 4%float).
Proof.
  assert (H : (1 <=? 4)%float = true ∧ (4 <=? 5)%float = true) by (split; reflexivity).
  destruct (rateMovie_success initial 1 42 4%float None [] H) as (s2 & Hrun & Hget & _).
  split; [exact H |]. exists s2. split; assumption.
Defined.

(** X21. A rating inside the range that the server refuses leaves the
    cached map and the list as they were; the caller receives the error, the
    error signal tells of the failure, the loading flag is down, and no
    request for the list follows. *)
Theorem rateMovie_refused (s : System) (caller : nat) (id : Z) (score : float)
    (comment : option string) (e : Http.Error) :
  (1 <=? score)%float = true ∧ (score <=? 5)%float = true →
  ∃ s2, run s [RateMovie caller id score comment; Settle s.(nextId) (Failure e)]
        = Some s2
        ∧ s2.(service).(_ratingsMap) = s.(service).(_ratingsMap)
        ∧ s2.(service).(_userRatings) = s.(service).(_userRatings)
        ∧ s2.(service).(_error) = Some "Failed to submit rating"
        ∧ s2.(service).(_isLoading) = false
        ∧ List.length s2.(sent) = S (List.length s.(sent))
        ∧ s2.(delivered) = s.(delivered) ++ [(caller, Fail e)].
Proof.
  intros [H1 H5]. cbn [run step]. unfold rateMovie.
  rewrite (guard_in_range score H1 H5).
  cbn. rewrite lookup_insert_eq. eexists. split; [reflexivity |]. cbn.
  repeat split. rewrite List.length_app. cbn. lia.
Qed.

Lemma rateMovie_refused_witness :
  ((1 <=? 4)%float = true ∧ (4 <=? 5)%float = true)
  ∧ (∃ s2, run initial [RateMovie 1 42 4%float None;
                        Settle 0 (Failure (Http.JsError "offline"))]
           = Some s2
           ∧ s2.(service).(_ratingsMap) = initial.(service).(_ratingsMap)).
Proof.
  assert (H : (1 <=? 4)%float = true ∧ (4 <=? 5)%float = true) by (split; reflexivity).
  destruct (rateMovie_refused initial 1 42 4%float None (Http.JsError "offline") H)
    as (s2 & Hrun & Hmap & _).
  split; [exact H |]. exists s2. split; assumption.
Defined.

(** X22. A deletion is not applied before the server answers.  When the
    server accepts it, the movie leaves the cached map and every entry for it
    leaves the list, the other movies' cached ratings stay, and no request
    for the list follows; when the server refuses it, map and list are as
    they were and the caller receives the error. *)
Theorem deleteRating_settles (s : System) (caller : nat) (id : Z) (r : Reply) :
  let s1 := deleteRating caller id s in
  s1.(service).(_ratingsMap) = s.(service).(_ratingsMap)
  ∧ s1.(service).(_userRatings) = s.(service).(_userRatings)
  ∧ ∃ s2, step s1 (Settle s.(nextId) r) = Some s2
          ∧ s2.(sent) = s.(sent) ++ [DeleteRating id]
          ∧ match r with
            | Success _ =>
                hasRated id s2 = false
                ∧ (∀ other, other ≠ id →
                     getCachedRating other s2 = getCachedRating other s)
                ∧ s2.(service).(_userRatings)
                  = filter (λ r, r.(tmdbId) ≠ id) s.(service).(_userRatings)
                ∧ s2.(delivered) = s.(delivered) ++ [(caller, Undefined)]
            | Failure e =>
                s2.(service).(_ratingsMap) = s.(service).(_ratingsMap)
                ∧ s2.(service).(_userRatings) = s.(service).(_userRatings)
                ∧ s2.(service).(_error) = Some "Failed to delete rating"
                ∧ s2.(delivered) = s.(delivered) ++ [(caller, Fail e)]
            end.
Proof.
  cbn. split; [reflexivity |]. split; [reflexivity |].
  rewrite lookup_insert_eq. eexists. split; [reflexivity |].
  destruct r as [l | e]; cbn; [| repeat split].
  split; [reflexivity |]. split.
  { unfold hasRated. cbn. apply bool_decide_eq_false. rewrite lookup_delete_eq.
    intros [x Hx]. discriminate. }
  split; [intros other Hne; unfold getCachedRating; cbn; by apply lookup_delete_ne |].
  repeat split.
Qed.

End RatingMore.

(** ** validatePassword *)

Section PasswordFacts.
Import Js Password.

Lemma test_exists (cls : ascii → bool) (s : string) :
  test cls s = true ↔ ∃ c, In c (list_ascii_of_string s) ∧ cls c = true.
Proof.
  induction s as [| c s IH]; cbn.
  - split; [discriminate | intros (c & [] & _)].
  - rewrite orb_true_iff, IH. split.
    + intros [H | (d & Hin & Hd)]; [exists c | exists d]; auto.
    + intros (d & [<- | Hin] & Hd); [left | right; exists d]; auto.
Qed.

(** X23. An ASCII password is valid exactly when it has at least eight
    characters and holds a lowercase letter, an uppercase letter, a digit
    and one of the characters @$!%*?&; it is valid exactly when no error
    message is returned, and never more than five are. *)
Theorem validatePassword_valid_iff (password : string) :
  every isAscii password = true →
  let result := validatePassword password in
  (result.(valid) = true
   ↔ (8 ≤ String.length password)%nat
     ∧ (∃ c, In c (list_ascii_of_string password) ∧ isLower c = true)
     ∧ (∃ c, In c (list_ascii_of_string password) ∧ isUpper c = true)
     ∧ (∃ c, In c (list_ascii_of_string password) ∧ isDigit c = true)
     ∧ (∃ c, In c (list_ascii_of_string password) ∧ isSpecial c = true))
  ∧ (result.(valid) = true ↔ result.(errors) = [])
  ∧ (List.length result.(errors) ≤ 5)%nat.
Proof.
  intros _. unfold validatePassword. cbn [valid errors].
  rewrite <- !test_exists.
  destruct (Nat.ltb_spec (String.length password) 8) as [Hlen | Hlen];
    destruct (test isLower password), (test isUpper password),
             (test isDigit password), (test isSpecial password); cbn;
    (split; [| split; [| lia]]); split;
    try discriminate; try (intros; reflexivity);
    try (intros (? & ? & ? & ? & ?); first [lia | discriminate]);
    intros _; repeat split; lia.
Qed.

Lemma validatePassword_valid_iff_witness :
  every isAscii "Passw0rd!" = true
  ∧ (validatePassword "Passw0rd!").(valid) = true
  ∧ (validatePassword "Passw0rd!").(errors) = []
  ∧ (validatePassword "passw0rd").(valid) = false
  ∧ (validatePassword "passw0rd").(errors)
    = ["Password must contain at least one uppercase letter";
       "Password must contain at least one special character (@$!%*?&)"].
Proof.
  assert (H : every isAscii "Passw0rd!" = true) by reflexivity.
  destruct (validatePassword_valid_iff "Passw0rd!" H) as (_ & Hnone & _).
  assert (Hv : (validatePassword "Passw0rd!").(valid) = true) by reflexivity.
  split; [exact H |]. split; [exact Hv |]. split; [exact (proj1 Hnone Hv) |].
  split; reflexivity.
Defined.

End PasswordFacts.

(** ** Notifications and their timers *)

Section ToastFacts.
Import Toast.

Lemma dismiss_absent (i : string) (l : list Notification) :
  (∀ m, m ∈ l → m.(id) ≠ i) → filter (λ n, n.(id) ≠ i) l = l.
Proof.
  induction l as [| m l IH]; intros Hfresh; [reflexivity |].
  rewrite filter_cons. destruct (decide (m.(id) ≠ i)) as [_ | Hm].
  - f_equal. apply IH. intros m' Hin. apply Hfresh. by right.
  - exfalso. apply Hm, Hfresh. by left.
Qed.

Lemma dismiss_shown (i : string) (n : Notification) (l : list Notification) :
  (∀ m, m ∈ l → m.(id) ≠ i) → n.(id) = i →
  filter (λ n, n.(id) ≠ i) (l ++ [n]) = l.
Proof.
  intros Hfresh Hn. rewrite filter_app, (dismiss_absent _ _ Hfresh), filter_cons.
  destruct (decide (n.(id) ≠ i)) as [Hne | _]; [contradiction |].
  apply app_nil_r.
Qed.

Lemma timer_set (i : string) (d : Z) (l : list (string * Z)) :
  List.existsb (λ t, String.eqb i t.1) (l ++ [(i, d)]) = true.
Proof.
  rewrite List.existsb_app. cbn. rewrite String.eqb_refl. apply orb_true_r.
Qed.

Lemma dropTimer_subset (i : string) (l : list (string * Z)) (t : string * Z) :
  t ∈ dropTimer i l → t ∈ l.
Proof.
  induction l as [| [j d] l IH]; cbn; [done |].
  destruct (String.eqb i j).
  - intros H. by right.
  - intros [-> | H]%elem_of_cons; [by left | right; auto].
Qed.

Lemma fire_keeps (i j : string) (s : NotificationService) (m : Notification) :
  (∀ t, t ∈ s.(timers) → t.1 ≠ j) → m ∈ s.(_notifications) → m.(id) = j →
  (∀ t, t ∈ (fire i s).(timers) → t.1 ≠ j) ∧ m ∈ (fire i s).(_notifications).
Proof.
  intros Htimers Hin Hid. unfold fire.
  destruct (List.existsb _ _) eqn:Hex; [| by split].
  cbn. split.
  - intros t Ht. apply Htimers. by apply (dropTimer_subset i).
  - apply list_elem_of_filter. split; [| assumption].
    rewrite Hid. intros ->.
    apply List.existsb_exists in Hex as (t & Ht & Heq).
    apply String.eqb_eq in Heq. apply (Htimers t); [by apply list_elem_of_In | done].
Qed.

(** X24. A notification shown under an id that no notification on display
    bears is taken off again by [dismiss] of that id, which leaves the others
    as they were; unless it is persistent a timer is set for it, of the given
    duration or else of the default one of its type, and when that timer runs
    out the same happens. *)
Theorem shown_notification_goes (newId : string) (n : Notification)
    (s : NotificationService) :
  (∀ m, m ∈ s.(_notifications) → m.(id) ≠ newId) →
  (dismiss newId (show newId n s)).(_notifications) = s.(_notifications)
  ∧ (isPersistent n = false →
     (show newId n s).(timers)
     = s.(timers) ++ [(newId, default (DEFAULT_DURATIONS n.(type)) n.(duration))]
     ∧ (fire newId (show newId n s)).(_notifications) = s.(_notifications)).
Proof.
  intros Hfresh. split; [by apply dismiss_shown |].
  intros Hp. unfold fire, show. rewrite Hp. cbn [timers _notifications].
  split; [by destruct (duration n) |].
  rewrite timer_set. by apply dismiss_shown.
Qed.

Lemma shown_notification_goes_witness :
  let s := showError "notification-1-a" "Offline" None true
             {| _notifications := []; timers := [] |} in
  (fire "notification-2-b" (showSuccess "notification-2-b" "Saved" None s)).(_notifications)
  = s.(_notifications).
Proof.
  intros s.
  assert (Hfresh : ∀ m, m ∈ s.(_notifications) → m.(id) ≠ "notification-2-b").
  { intros m [-> | []%elem_of_nil]%elem_of_cons. discriminate. }
  exact (proj2 (proj2 (shown_notification_goes "notification-2-b"
                         (input Notification.success "Saved" None None) s Hfresh)
                 eq_refl)).
Defined.

(** X25. A persistent notification sets no timer: when its id is not that
    of a timer already set, it stays on display whichever timers run out, in
    any order. *)
Theorem persistent_notification_stays (newId : string) (n : Notification)
    (s : NotificationService) (fired : list string) :
  isPersistent n = true →
  (∀ t, t ∈ s.(timers) → t.1 ≠ newId) →
  (show newId n s).(timers) = s.(timers)
  ∧ ∃ m, m ∈ (fold_left (λ s i, fire i s) fired (show newId n s)).(_notifications)
         ∧ m.(id) = newId ∧ m.(message) = n.(message) ∧ m.(type) = n.(type).
Proof.
  intros Hp Htimers.
  assert (Hsame : (show newId n s).(timers) = s.(timers)) by (unfold show; by rewrite Hp).
  split; [exact Hsame |].
  set (m := {| id := newId; type := n.(type); message := n.(message);
               title := n.(title); persistent := n.(persistent);
               duration := Some (default (DEFAULT_DURATIONS n.(type)) n.(duration)) |}).
  exists m. split; [| by repeat split].
  assert (Hin : m ∈ (show newId n s).(_notifications)).
  { unfold show. cbn [_notifications]. apply elem_of_app. right.
    apply list_elem_of_singleton. subst m. by destruct (duration n). }
  rewrite <- Hsame in Htimers. clear Hsame Hp.
  revert Hin Htimers. generalize (show newId n s).
  induction fired as [| i fired IH]; intros s' Hin Htimers; [exact Hin |].
  cbn [fold_left].
  destruct (fire_keeps i newId s' m Htimers Hin eq_refl) as [Ht' Hin'].
  by apply IH.
Qed.

Lemma persistent_notification_stays_witness :
  let s := showSuccess "notification-1-a" "Saved" None
             {| _notifications := []; timers := [] |} in
  isPersistent (input Notification.error "Offline" None (Some true)) = true
  ∧ ∃ m, m ∈ (fold_left (λ s i, fire i s) ["notification-1-a"; "notification-2-b"]
                (showError "notification-2-b" "Offline" None true s)).(_notifications)
         ∧ m.(id) = "notification-2-b".
Proof.
  intros s.
  assert (Hp : isPersistent (input Notification.error "Offline" None (Some true)) = true)
    by reflexivity.
  assert (Htimers : ∀ t, t ∈ s.(timers) → t.1 ≠ "notification-2-b").
  { intros t [-> | []%elem_of_nil]%elem_of_cons. discriminate. }
  destruct (persistent_notification_stays "notification-2-b"
              (input Notification.error "Offline" None (Some true)) s
              ["notification-1-a"; "notification-2-b"] Hp Htimers)
    as (_ & m & Hin & Hid & _).
  split; [exact Hp |]. exists m. split; assumption.
Defined.

End ToastFacts.

#[local] Arguments String.append !s1 s2 : simpl nomatch.

(** ** Which of the services' addresses the interceptor takes for public *)

Section RouteFacts.
Import Js Routes Http Auth.

Lemma digit_cases (c : ascii) :
  isDigit c = true →
  In c ["0"; "1"; "2"; "3"; "4"; "5"; "6"; "7"; "8"; "9"]%char.
Proof.
  destruct c as [[] [] [] [] [] [] [] []]; vm_compute; intros H;
    try discriminate H; repeat (first [left; reflexivity | right]).
Qed.

Lemma digit_differs (a x : ascii) :
  isDigit x = true → isDigit a = false →
  Ascii.eqb a x = false ∧ Ascii.eqb x a = false.
Proof.
  intros Hx Ha. split; apply Ascii.eqb_neq; congruence.
Qed.

Lemma append_empty (a : string) : a +:+ EmptyString = a.
Proof. induction a as [| x a IH]; simpl; [reflexivity | by rewrite IH]. Qed.

Lemma uint_digits (u : Decimal.uint) :
  Forall (λ c, isDigit c = true) (list_ascii_of_string (NilEmpty.string_of_uint u)).
Proof. induction u; cbn; constructor; auto. Qed.

Lemma span_skip (f : ascii → bool) (a b : string) :
  (∀ x, isDigit x = true → f x = false) →
  Forall (λ c, isDigit c = true) (list_ascii_of_string a) →
  span f (a +:+ b) = (a +:+ (span f b).1, (span f b).2).
Proof.
  intros Hf. induction a as [| x a IH]; simpl; intros H.
  - destruct (span f b); reflexivity.
  - inversion H as [| ? ? Hx Ha]; subst. rewrite (Hf _ Hx), (IH Ha). reflexivity.
Qed.

Lemma includes_skip (a b : string) (y : ascii) (e : string) :
  isDigit y = false →
  Forall (λ c, isDigit c = true) (list_ascii_of_string a) →
  includes (a +:+ b) (String y e) = includes b (String y e).
Proof.
  intros Hy. induction a as [| x a IH]; simpl String.append; simpl list_ascii_of_string;
    intros H; [reflexivity |].
  inversion H as [| ? ? Hx Ha]; subst.
  change (includes (String x (a +:+ b)) (String y e))
    with (startsWith (String x (a +:+ b)) (String y e) || includes (a +:+ b) (String y e)).
  cbn [startsWith]. rewrite (proj1 (digit_differs y x Hx Hy)), (IH Ha). reflexivity.
Qed.

Lemma endsWith_skip (a b : string) (y : ascii) (e : string) :
  isDigit y = false →
  Forall (λ c, isDigit c = true) (list_ascii_of_string a) →
  endsWith (a +:+ b) (String y e) = endsWith b (String y e).
Proof.
  intros Hy. induction a as [| x a IH]; simpl String.append; simpl list_ascii_of_string;
    intros H; [reflexivity |].
  inversion H as [| ? ? Hx Ha]; subst.
  change (endsWith (String x (a +:+ b)) (String y e))
    with (String.eqb (String x (a +:+ b)) (String y e) || endsWith (a +:+ b) (String y e)).
  cbn [String.eqb]. rewrite (proj2 (digit_differs y x Hx Hy)), (IH Ha). reflexivity.
Qed.

Lemma toString_shape (id : Z) :
  ∃ c u, Js.toString id = String c (NilEmpty.string_of_uint u)
         ∧ if 0 <=? id then isDigit c = true else c = "-"%char.
Proof.
  unfold Js.toString. destruct id as [| p | p]; cbn [Z.to_int NilZero.string_of_int].
  - exists "0"%char, Decimal.Nil. split; reflexivity.
  - pose proof (DecimalPos.Unsigned.to_uint_nonnil p) as Hnil.
    destruct (Pos.to_uint p) as [| u | u | u | u | u | u | u | u | u | u];
      [congruence | ..]; eexists _, u; (split; [reflexivity |]); reflexivity.
  - pose proof (DecimalPos.Unsigned.to_uint_nonnil p) as Hnil.
    exists "-"%char, (Pos.to_uint p). split; [| reflexivity].
    destruct (Pos.to_uint p); [congruence | ..]; reflexivity.
Qed.

Lemma isPublic_path (url : string) :
  extractPath (extractPath url) = extractPath url →
  isPublic url = isPublic (extractPath url).
Proof. intros H. unfold isPublic. rewrite H. reflexivity. Qed.


Lemma digit_not_pathEnd (x : ascii) : isDigit x = true → isPathEnd x = false.
Proof.
  intros Hx. pose proof (digit_cases x Hx) as H. cbn in H.
  intuition subst; reflexivity.
Qed.

Lemma digit_not_other (x : ascii) : isDigit x = true → negb (isDigit x) = false.
Proof. intros ->. reflexivity. Qed.

(** The path of an address of the API that holds neither query nor
    fragment is what follows the host; a path by itself is left as it is. *)
Lemma extractPath_api (r : string) :
  span isPathEnd r = (r, EmptyString) →
  extractPath (API_BASE_URL +:+ String "/" r) = String "/" r
  ∧ extractPath (String "/" r) = String "/" r.
Proof.
  intros Hr. split; [| reflexivity].
  unfold extractPath, URL_pathname, API_BASE_URL. cbn. rewrite Hr. reflexivity.
Qed.

Ltac skip_digits HD :=
  rewrite ?(span_skip _ _ _ digit_not_pathEnd HD),
          ?(span_skip _ _ _ digit_not_other HD),
          ?includes_skip, ?endsWith_skip by (first [reflexivity | exact HD]).

Lemma sign_or_digit (id : Z) (c : ascii) :
  (if 0 <=? id then isDigit c = true else c = "-"%char) →
  In c ["-"; "0"; "1"; "2"; "3"; "4"; "5"; "6"; "7"; "8"; "9"]%char.
Proof.
  destruct (0 <=? id); [intros H; right; by apply digit_cases | intros ->; by left].
Qed.


Lemma isPublic_api (r : string) :
  span isPathEnd r = (r, EmptyString) →
  isPublic (API_BASE_URL +:+ String "/" r) = isPublic (String "/" r).
Proof.
  intros Hr. destruct (extractPath_api r Hr) as [H1 H2].
  rewrite isPublic_path; rewrite H1; [reflexivity | exact H2].
Qed.

Ltac classify Hc HD :=
  rewrite isPublic_api;
  cbn in Hc; intuition subst; unfold isPublic; cbn; skip_digits HD; vm_compute; reflexivity.

Lemma movieUrl_private (id : Z) : isPublic (Watchlist.movieUrl id) = false.
Proof.
  destruct (toString_shape id) as (c & u & Hs & Hc).
  apply sign_or_digit in Hc. pose proof (uint_digits u) as HD.
  unfold Watchlist.movieUrl. rewrite Hs.
  change (isPublic (API_BASE_URL +:+ String "/"
                      ("api/movies/" +:+ String c (NilEmpty.string_of_uint u +:+ "/watchlist")))
          = false).
  classify Hc HD.
Qed.

Lemma ratingUrl_private (id : Z) : isPublic (Rating.ratingUrl id) = false.
Proof.
  destruct (toString_shape id) as (c & u & Hs & Hc).
  apply sign_or_digit in Hc. pose proof (uint_digits u) as HD.
  unfold Rating.ratingUrl. rewrite Hs, <- (append_empty (NilEmpty.string_of_uint u)).
  change (isPublic (API_BASE_URL +:+ String "/"
                      ("api/ratings/" +:+ String c (NilEmpty.string_of_uint u +:+ EmptyString)))
          = false).
  classify Hc HD.
Qed.


Lemma userRatingUrl_private (id : Z) : isPublic (Rating.userRatingUrl id) = false.
Proof.
  destruct (toString_shape id) as (c & u & Hs & Hc).
  apply sign_or_digit in Hc. pose proof (uint_digits u) as HD.
  unfold Rating.userRatingUrl. rewrite Hs, <- (append_empty (NilEmpty.string_of_uint u)).
  change (isPublic (API_BASE_URL +:+ String "/"
                      ("api/ratings/movie/" +:+ String c (NilEmpty.string_of_uint u +:+ EmptyString)))
          = false).
  classify Hc HD.
Qed.

Lemma averageUrl_public (id : Z) : isPublic (Rating.averageUrl id) = (0 <=? id).
Proof.
  destruct (toString_shape id) as (c & u & Hs & Hc).
  pose proof (uint_digits u) as HD.
  unfold Rating.averageUrl. rewrite Hs.
  change (isPublic (API_BASE_URL +:+ String "/"
                      ("api/ratings/movie/" +:+ String c (NilEmpty.string_of_uint u +:+ "/average")))
          = (0 <=? id)).
  destruct (0 <=? id).
  - apply digit_cases in Hc. classify Hc HD.
  - subst c. rewrite isPublic_api; unfold isPublic; cbn; skip_digits HD; vm_compute; reflexivity.
Qed.

(** X26. The addresses of the watchlist and of the signed-in user's
    ratings are not taken for public, whatever the movie id: a request to one
    of them leaves the interceptor with the stored access token as its bearer
    token. *)
Theorem private_requests_carry_token (a : AuthService) (token : string) (id : Z)
    (m : Method) (p : Payload) (u : string) :
  getAccessToken a = Some token → nonEmpty token = true →
  u ∈ [Watchlist.apiUrl +:+ "/watchlist"; Watchlist.movieUrl id;
       Rating.apiUrl; Rating.ratingUrl id; Rating.userRatingUrl id] →
  isPublic u = false
  ∧ (authInterceptor_request a (newRequest m u p)).(headers) !! "Authorization"
    = Some ("Bearer " +:+ token).
Proof.
  intros Ht Hne Hu.
  assert (Hp : isPublic u = false).
  { repeat (apply elem_of_cons in Hu as [-> | Hu]).
    - vm_compute. reflexivity.
    - apply movieUrl_private.
    - vm_compute. reflexivity.
    - apply ratingUrl_private.
    - apply userRatingUrl_private.
    - by apply elem_of_nil in Hu. }
  split; [exact Hp |].
  unfold authInterceptor_request. cbn [url newRequest]. rewrite Ht, Hne, Hp. cbn.
  apply lookup_insert_eq.
Qed.

Lemma private_requests_carry_token_witness :
  getAccessToken signedIn = Some "A0"
  ∧ (authInterceptor_request signedIn
       (newRequest DELETE (Watchlist.movieUrl 603) NoPayload)).(headers) !! "Authorization"
    = Some "Bearer A0".
Proof.
  assert (Ht : getAccessToken signedIn = Some "A0") by reflexivity.
  assert (Hne : nonEmpty "A0" = true) by reflexivity.
  assert (Hu : Watchlist.movieUrl 603
               ∈ [Watchlist.apiUrl +:+ "/watchlist"; Watchlist.movieUrl 603;
                  Rating.apiUrl; Rating.ratingUrl 603; Rating.userRatingUrl 603]).
  { apply elem_of_cons. right. apply elem_of_cons. left. reflexivity. }
  split; [exact Ht |].
  exact (proj2 (private_requests_carry_token signedIn "A0" 603 DELETE NoPayload
                  (Watchlist.movieUrl 603) Ht Hne Hu)).
Defined.

(** X27. For a movie id that JavaScript holds exactly (below 2^53 in
    absolute value), the address of the movie's average rating is taken for
    public exactly when the id is not negative; the request for it then
    leaves the interceptor as it came, without the token, also for a
    signed-in user. *)
Theorem average_rating_public (a : AuthService) (id : Z) :
  Z.abs id < 2 ^ 53 →
  isPublic (Rating.averageUrl id) = (0 <=? id)
  ∧ (0 <= id →
     authInterceptor_request a (newRequest GET (Rating.averageUrl id) NoPayload)
     = newRequest GET (Rating.averageUrl id) NoPayload).
Proof.
  intros _. split; [apply averageUrl_public |].
  intros Hid. unfold authInterceptor_request. cbn [url newRequest].
  rewrite averageUrl_public. replace (0 <=? id) with true by (symmetry; by apply Z.leb_le).
  destruct (getAccessToken a) as [token |]; [| reflexivity].
  rewrite andb_false_r. reflexivity.
Qed.

Lemma average_rating_public_witness :
  Z.abs 603 < 2 ^ 53
  ∧ 0 <= 603
  ∧ isPublic (Rating.averageUrl 603) = true
  ∧ authInterceptor_request signedIn (newRequest GET (Rating.averageUrl 603) NoPayload)
    = newRequest GET (Rating.averageUrl 603) NoPayload.
Proof.
  assert (Hb : Z.abs 603 < 2 ^ 53) by reflexivity.
  assert (Hid : 0 <= 603) by lia.
  destruct (average_rating_public signedIn 603 Hb) as [Hp Hreq].
  split; [exact Hb |]. split; [exact Hid |]. split; [exact Hp |]. exact (Hreq Hid).
Defined.

End RouteFacts.
